(** * robot-protocol: the JSON command protocol engine

    A shallow embedding of [robot-protocol/src/protocol.c] and of the part of
    the cJSON interface it uses, followed by the properties of the protocol
    that hold (or fail) on that code.

    Conventions of the embedding
    - a [const cJSON *] that may be [NULL] is an [option cJSON];
    - a C [double] is a primitive binary64 [float]; a C [float] is a
      [spec_float] of the binary32 format;
    - fixed-width integers are [Z], every conversion writes out its range;
    - the handler table and the world the handlers act on are threaded as
      state; every run also returns the trace of what it did (calls through
      the table, diagnostics, texts parsed); a conversion that C leaves
      undefined ends the run in [Undefined];
    - [ESP_LOGD] lines are left out: they neither branch nor return;
    - [cJSON_Parse] is a parameter of the engine, since the cJSON library is
      not among the files of the repository; where a property is about the
      decoding itself, and on the test bench, the decoder modelled from the
      specification ([Decoder.decode]) stands for it. *)

From Stdlib Require Import ZArith List String Ascii Bool Lia.
From Stdlib Require Import Floats.
Import ListNotations.

Local Open Scope string_scope.
Local Open Scope Z_scope.

(* ================================================================== *)
(** ** The cJSON document tree *)

Module cJSON_model.

(** One node of a parsed document.  cJSON keeps the members of an object and
    the elements of an array as a linked list of children in document order;
    a member carries its name in [string].  Names may repeat. *)
#[warnings="-register-all"]
Inductive cJSON : Type :=
| cJSON_False
| cJSON_True
| cJSON_NULL
| cJSON_Number (valuedouble : float)
| cJSON_String (valuestring : string)
| cJSON_Array (child : list cJSON)
| cJSON_Object (child : list (string * cJSON)).

(** [cJSON_IsX(item)]: false on [NULL]. *)
Definition cJSON_IsString (item : option cJSON) : bool :=
  match item with Some (cJSON_String _) => true | _ => false end.

Definition cJSON_IsNumber (item : option cJSON) : bool :=
  match item with Some (cJSON_Number _) => true | _ => false end.

Definition cJSON_IsBool (item : option cJSON) : bool :=
  match item with Some cJSON_True | Some cJSON_False => true | _ => false end.

Definition cJSON_IsTrue (item : option cJSON) : bool :=
  match item with Some cJSON_True => true | _ => false end.

Definition cJSON_IsArray (item : option cJSON) : bool :=
  match item with Some (cJSON_Array _) => true | _ => false end.

Definition cJSON_IsObject (item : option cJSON) : bool :=
  match item with Some (cJSON_Object _) => true | _ => false end.

(** The walk of [get_object_item] over the children: the first member whose
    name is [name], compared as [strcmp] does. *)
Fixpoint get_object_item (members : list (string * cJSON)) (name : string)
  : option cJSON :=
  match members with
  | [] => None
  | (k, v) :: rest => if String.eqb name k then Some v else get_object_item rest name
  end.

(** [cJSON_GetObjectItemCaseSensitive(object, name)].  The children of an
    array have no name and every other node has no child: the lookup is
    [NULL] on anything but an object. *)
Definition cJSON_GetObjectItemCaseSensitive (object : cJSON) (name : string)
  : option cJSON :=
  match object with
  | cJSON_Object members => get_object_item members name
  | _ => None
  end.

(** [item->valuedouble] and [item->valuestring] under the guard the code
    always puts in front of them ([cJSON_IsNumber], [cJSON_IsString]). *)
Definition number_value (item : option cJSON) : option float :=
  match item with Some (cJSON_Number d) => Some d | _ => None end.

Definition string_value (item : option cJSON) : option string :=
  match item with Some (cJSON_String s) => Some s | _ => None end.

End cJSON_model.
Export cJSON_model.

(* ================================================================== *)
(** ** Conversions out of [double] *)

Module Conv.

(** The integral part of a finite double (the fraction is discarded, as C's
    conversion to an integer type does); nothing for infinities and NaN. *)
Definition integral_part (d : float) : option Z :=
  match Prim2SF d with
  | S754_zero _ => Some 0
  | S754_finite s m e =>
      let a := Z.shiftl (Zpos m) e in
      Some (if s then - a else a)
  | S754_infinity _ => None
  | S754_nan => None
  end.

(** Conversion to an integer type of range [lo..hi]: defined only when the
    integral part is representable (C11 6.3.1.4). *)
Definition to_integer (lo hi : Z) (d : float) : option Z :=
  match integral_part d with
  | Some z => if (lo <=? z) && (z <=? hi) then Some z else None
  | None => None
  end.

Definition INT32_MIN : Z := - 2 ^ 31.
Definition INT32_MAX : Z := 2 ^ 31 - 1.
Definition UINT32_MAX : Z := 2 ^ 32 - 1.
Definition UINT16_MAX : Z := 2 ^ 16 - 1.
Definition UINT8_MAX : Z := 2 ^ 8 - 1.

Definition to_int32 : float -> option Z := to_integer INT32_MIN INT32_MAX.
Definition to_uint32 : float -> option Z := to_integer 0 UINT32_MAX.
Definition to_uint16 : float -> option Z := to_integer 0 UINT16_MAX.
Definition to_uint8 : float -> option Z := to_integer 0 UINT8_MAX.

(** A C [float]: binary32, 24 bits of precision, exponents below 128. *)
Definition float32 : Type := spec_float.

Definition float32_zero : float32 := S754_zero false.

(** [(float)d]: rounding to the nearest binary32 value, ties to even,
    overflow to an infinity. *)
Definition to_float (d : float) : float32 :=
  match Prim2SF d with
  | S754_finite s m e => binary_round 24 128 s m e
  | x => x
  end.

End Conv.
Export Conv.

(* ================================================================== *)
(** ** protocol.h: the calibration snapshot and what the engine can call *)

(** [protocol_drive_config_t], fields in declaration order. *)
Record protocol_drive_config_t : Type := {
  wheel_track_mm : float32;
  wheel_radius_mm : float32;
  min_speed_mm_per_s : float32;
  max_speed_mm_per_s : float32;
  ticks_per_revolution : float32;
  brake_on_stop : bool;
  enable_speed_control : bool;
  speed_kp : float32;
  speed_ki : float32;
  motor_gain_left : float32;
  motor_gain_right : float32
}.

(** [protocol_drive_config_t cfg = {0}]. *)
Definition cfg_zero : protocol_drive_config_t :=
  {| wheel_track_mm := float32_zero; wheel_radius_mm := float32_zero;
     min_speed_mm_per_s := float32_zero; max_speed_mm_per_s := float32_zero;
     ticks_per_revolution := float32_zero;
     brake_on_stop := false; enable_speed_control := false;
     speed_kp := float32_zero; speed_ki := float32_zero;
     motor_gain_left := float32_zero; motor_gain_right := float32_zero |}.

(** One call through the handler table, with the arguments it was given. *)
Inductive call : Type :=
| call_drive (direction : string) (speed_mm_per_s duration_ms distance_mm : Z)
| call_turn (radius_mm angle_deg speed_mm_per_s duration_ms : Z)
| call_stop
| call_clear_queue
| call_set_led_hsv (h s v : Z)
| call_set_drive_config (config : protocol_drive_config_t)
| call_immediate (left_frac right_frac : float32) (timeout_ms now_ms : Z).

Inductive esp_log_level_t : Type := ESP_LOG_ERROR | ESP_LOG_WARN.

(** What one run of the engine did, in the order it did it: calls made
    through the table, diagnostics written, and texts handed to the parser. *)
Inductive event : Type :=
| Invoked (c : call)
| Logged (level : esp_log_level_t) (message : string)
| Parsed (text : list Byte.byte).

(** The calls of a trace, in order. *)
Fixpoint calls (tr : list event) : list call :=
  match tr with
  | [] => []
  | Invoked c :: rest => c :: calls rest
  | _ :: rest => calls rest
  end.

(** The diagnostics of a trace, in order. *)
Fixpoint diagnostics (tr : list event) : list (esp_log_level_t * string) :=
  match tr with
  | [] => []
  | Logged l m :: rest => (l, m) :: diagnostics rest
  | _ :: rest => diagnostics rest
  end.

(* ================================================================== *)
(** ** The engine *)

Section Engine.

(** Everything outside the engine that a handler can change or the engine
    can read: actuators, queues, the clock. *)
Variable World : Type.

(** [esp_log_timestamp()]: milliseconds since boot, read off the world. *)
Variable esp_log_timestamp : World -> Z.

(** [cJSON_Parse] on a NUL-terminated text: the root of the tree, or [NULL]. *)
Variable cJSON_Parse : list Byte.byte -> option cJSON.

(** Whether [malloc] of that many bytes returns a buffer. *)
Variable malloc_ok : Z -> bool.

(** [protocol_handlers_t]: each entry a function pointer or [NULL].  The
    header declares [wait]; protocol.c never calls it. *)
Record protocol_handlers_t : Type := {
  drive : option (string -> Z -> Z -> Z -> World -> World);
  turn : option (Z -> Z -> Z -> Z -> World -> World);
  stop : option (World -> World);
  wait : option (Z -> World -> World);
  clear_queue : option (World -> World);
  set_led_hsv : option (Z -> Z -> Z -> World -> World);
  set_drive_config : option (protocol_drive_config_t -> World -> World);
  immediate : option (float32 -> float32 -> Z -> Z -> World -> World)
}.

Definition no_handlers : protocol_handlers_t :=
  {| drive := None; turn := None; stop := None; wait := None;
     clear_queue := None;
     set_led_hsv := None; set_drive_config := None; immediate := None |}.

(** The static [s_handlers] and the world. *)
Record state : Type := {
  s_handlers : protocol_handlers_t;
  world : World
}.

(** A run either returns a value, the state it leaves and the trace of what
    it did, or has left defined behaviour. *)
Inductive outcome (A : Type) : Type :=
| Done (a : A) (st : state) (tr : list event)
| Undefined.
Arguments Done {A} a st tr.
Arguments Undefined {A}.

Definition M (A : Type) : Type := state -> outcome A.

Definition ret {A} (a : A) : M A := fun st => Done a st [].

Definition bind {A B} (m : M A) (k : A -> M B) : M B :=
  fun st =>
    match m st with
    | Done a st1 tr1 =>
        match k a st1 with
        | Done b st2 tr2 => Done b st2 (tr1 ++ tr2)
        | Undefined => Undefined
        end
    | Undefined => Undefined
    end.

Notation "x <- m ;; k" := (bind m (fun x => k))
  (at level 61, m at next level, right associativity).
Notation "m ;;; k" := (bind m (fun _ => k))
  (at level 61, right associativity).

(** A conversion C defines only on part of its domain. *)
Definition defined {A} (o : option A) : M A :=
  fun st => match o with Some a => Done a st [] | None => Undefined end.

Definition ESP_LOGE (message : string) : M unit :=
  fun st => Done tt st [Logged ESP_LOG_ERROR message].

Definition ESP_LOGW (message : string) : M unit :=
  fun st => Done tt st [Logged ESP_LOG_WARN message].

(** [if (s_handlers.h != NULL) { s_handlers.h(args); }], the handler already
    applied to its arguments; [c] is the call as the trace records it. *)
Definition call_if_bound (h : protocol_handlers_t -> option (World -> World))
    (c : call) : M unit :=
  fun st =>
    match h (s_handlers st) with
    | Some f => Done tt {| s_handlers := s_handlers st; world := f (world st) |}
                     [Invoked c]
    | None => Done tt st []
    end.

(** [protocol_set_handlers]. *)
Definition protocol_set_handlers (handlers : option protocol_handlers_t) : M unit :=
  fun st =>
    Done tt {| s_handlers := match handlers with Some h => h | None => no_handlers end;
               world := world st |} [].

(** [cond ? (uint32_t)item->valuedouble : dflt] under [cJSON_IsNumber]. *)
Definition number_or (conv : float -> option Z) (item : option cJSON) (dflt : Z)
  : M Z :=
  match number_value item with
  | Some d => defined (conv d)
  | None => ret dflt
  end.

(** [handle_drive_command]. *)
Definition handle_drive_command (command : cJSON) : M bool :=
  let direction := cJSON_GetObjectItemCaseSensitive command "direction" in
  let speed := cJSON_GetObjectItemCaseSensitive command "speed" in
  let duration := cJSON_GetObjectItemCaseSensitive command "duration" in
  let distance := cJSON_GetObjectItemCaseSensitive command "distance" in
  match string_value direction, number_value speed with
  | Some direction_valuestring, Some speed_valuedouble =>
      speed_mm_per_s <- defined (to_int32 speed_valuedouble) ;;
      duration_ms <- number_or to_uint32 duration 0 ;;
      distance_mm <- number_or to_uint32 distance 0 ;;
      call_if_bound
        (fun hs => option_map
           (fun f => f direction_valuestring speed_mm_per_s duration_ms distance_mm)
           (drive hs))
        (call_drive direction_valuestring speed_mm_per_s duration_ms distance_mm) ;;;
      ret true
  | _, _ =>
      ESP_LOGW "Invalid drive command payload" ;;;
      ret false
  end.

(** [handle_turn_command]. *)
Definition handle_turn_command (command : cJSON) : M bool :=
  let radius := cJSON_GetObjectItemCaseSensitive command "radius" in
  let angle := cJSON_GetObjectItemCaseSensitive command "angle" in
  let speed := cJSON_GetObjectItemCaseSensitive command "speed" in
  let duration := cJSON_GetObjectItemCaseSensitive command "duration" in
  match number_value radius, number_value angle with
  | Some radius_valuedouble, Some angle_valuedouble =>
      radius_mm <- defined (to_int32 radius_valuedouble) ;;
      angle_deg <- defined (to_int32 angle_valuedouble) ;;
      speed_mm_per_s <- number_or to_int32 speed 0 ;;
      duration_ms <- number_or to_uint32 duration 0 ;;
      (* Require at least one of speed or duration. *)
      if (speed_mm_per_s <=? 0) && (duration_ms =? 0) then
        ESP_LOGW "Turn command requires speed or duration" ;;;
        ret false
      else
        call_if_bound
          (fun hs => option_map
             (fun f => f radius_mm angle_deg speed_mm_per_s duration_ms)
             (turn hs))
          (call_turn radius_mm angle_deg speed_mm_per_s duration_ms) ;;;
        ret true
  | _, _ =>
      ESP_LOGW "Invalid turn command payload (radius/angle)" ;;;
      ret false
  end.

(** [handle_led_hsv_command]. *)
Definition handle_led_hsv_command (command : cJSON) : M bool :=
  let h := cJSON_GetObjectItemCaseSensitive command "h" in
  let s := cJSON_GetObjectItemCaseSensitive command "s" in
  let v := cJSON_GetObjectItemCaseSensitive command "v" in
  match number_value h with
  | Some h_valuedouble =>
      hue <- defined (to_uint16 h_valuedouble) ;;
      sat <- number_or to_uint8 s 255 ;;
      val <- number_or to_uint8 v 32 ;;
      call_if_bound
        (fun hs => option_map (fun f => f hue sat val) (set_led_hsv hs))
        (call_set_led_hsv hue sat val) ;;;
      ret true
  | None =>
      ESP_LOGW "Invalid led_hsv command payload (missing h)" ;;;
      ret false
  end.

(** [(uint32_t)esp_log_timestamp()], read at this point of the run. *)
Definition read_clock : M Z :=
  fun st => Done (esp_log_timestamp (world st) mod 2 ^ 32) st [].

(** [handle_immediate_command]. *)
Definition handle_immediate_command (command : cJSON) : M bool :=
  let left := cJSON_GetObjectItemCaseSensitive command "left" in
  let right := cJSON_GetObjectItemCaseSensitive command "right" in
  let timeout := cJSON_GetObjectItemCaseSensitive command "timeout_ms" in
  match number_value left, number_value right with
  | Some left_valuedouble, Some right_valuedouble =>
      let left_frac := to_float left_valuedouble in
      let right_frac := to_float right_valuedouble in
      timeout_ms <- number_or to_uint32 timeout 200 ;;
      now_ms <- read_clock ;;
      call_if_bound
        (fun hs => option_map
           (fun f => f left_frac right_frac timeout_ms now_ms)
           (immediate hs))
        (call_immediate left_frac right_frac timeout_ms now_ms) ;;;
      ret true
  | _, _ =>
      ESP_LOGW "Invalid immediate command payload (left/right)" ;;;
      ret false
  end.

(** [handle_single_command_object]: the chain of [strcmp] on [kind]. *)
Definition handle_single_command_object (command : cJSON) : M bool :=
  let kind := cJSON_GetObjectItemCaseSensitive command "kind" in
  match string_value kind with
  | None =>
      ESP_LOGW "JSON command missing kind" ;;;
      ret false
  | Some kind_valuestring =>
      if String.eqb kind_valuestring "drive" then handle_drive_command command
      else if String.eqb kind_valuestring "turn" then handle_turn_command command
      else if String.eqb kind_valuestring "led_hsv" then handle_led_hsv_command command
      else if String.eqb kind_valuestring "immediate" then handle_immediate_command command
      else if String.eqb kind_valuestring "stop" then
        call_if_bound stop call_stop ;;;
        ret true
      else if String.eqb kind_valuestring "wait" then ret true
      else if String.eqb kind_valuestring "pause" then ret true
      else if String.eqb kind_valuestring "resume" then ret true
      else if String.eqb kind_valuestring "clear_queue" then
        call_if_bound clear_queue call_clear_queue ;;;
        ret true
      else
        ESP_LOGW ("Unknown command kind: " ++ kind_valuestring) ;;;
        ret false
  end.

(** The body of the loop of [handle_sequence_type], for one element. *)
Definition sequence_step (step : cJSON) : M unit :=
  if negb (cJSON_IsObject (Some step)) then
    ESP_LOGW "Sequence step is not an object"
  else
    handle_single_command_object step ;;;
    ret tt.

(** [cJSON_ArrayForEach(element, array) body]: the children in order. *)
Fixpoint cJSON_ArrayForEach (elements : list cJSON) (body : cJSON -> M unit)
  : M unit :=
  match elements with
  | [] => ret tt
  | element :: rest => body element ;;; cJSON_ArrayForEach rest body
  end.

(** [handle_sequence_type]. *)
Definition handle_sequence_type (root : cJSON) : M unit :=
  match cJSON_GetObjectItemCaseSensitive root "steps" with
  | Some (cJSON_Array steps) => cJSON_ArrayForEach steps sequence_step
  | _ => ESP_LOGW "Sequence missing steps array"
  end.

(** The assignments [cfg.field = value], one per field. *)
Definition set_wheel_track_mm v c :=
  {| wheel_track_mm := v; wheel_radius_mm := wheel_radius_mm c;
     min_speed_mm_per_s := min_speed_mm_per_s c;
     max_speed_mm_per_s := max_speed_mm_per_s c;
     ticks_per_revolution := ticks_per_revolution c;
     brake_on_stop := brake_on_stop c;
     enable_speed_control := enable_speed_control c;
     speed_kp := speed_kp c; speed_ki := speed_ki c;
     motor_gain_left := motor_gain_left c; motor_gain_right := motor_gain_right c |}.

Definition set_wheel_radius_mm v c :=
  {| wheel_track_mm := wheel_track_mm c; wheel_radius_mm := v;
     min_speed_mm_per_s := min_speed_mm_per_s c;
     max_speed_mm_per_s := max_speed_mm_per_s c;
     ticks_per_revolution := ticks_per_revolution c;
     brake_on_stop := brake_on_stop c;
     enable_speed_control := enable_speed_control c;
     speed_kp := speed_kp c; speed_ki := speed_ki c;
     motor_gain_left := motor_gain_left c; motor_gain_right := motor_gain_right c |}.

Definition set_min_speed_mm_per_s v c :=
  {| wheel_track_mm := wheel_track_mm c; wheel_radius_mm := wheel_radius_mm c;
     min_speed_mm_per_s := v;
     max_speed_mm_per_s := max_speed_mm_per_s c;
     ticks_per_revolution := ticks_per_revolution c;
     brake_on_stop := brake_on_stop c;
     enable_speed_control := enable_speed_control c;
     speed_kp := speed_kp c; speed_ki := speed_ki c;
     motor_gain_left := motor_gain_left c; motor_gain_right := motor_gain_right c |}.

Definition set_max_speed_mm_per_s v c :=
  {| wheel_track_mm := wheel_track_mm c; wheel_radius_mm := wheel_radius_mm c;
     min_speed_mm_per_s := min_speed_mm_per_s c;
     max_speed_mm_per_s := v;
     ticks_per_revolution := ticks_per_revolution c;
     brake_on_stop := brake_on_stop c;
     enable_speed_control := enable_speed_control c;
     speed_kp := speed_kp c; speed_ki := speed_ki c;
     motor_gain_left := motor_gain_left c; motor_gain_right := motor_gain_right c |}.

Definition set_ticks_per_revolution v c :=
  {| wheel_track_mm := wheel_track_mm c; wheel_radius_mm := wheel_radius_mm c;
     min_speed_mm_per_s := min_speed_mm_per_s c;
     max_speed_mm_per_s := max_speed_mm_per_s c;
     ticks_per_revolution := v;
     brake_on_stop := brake_on_stop c;
     enable_speed_control := enable_speed_control c;
     speed_kp := speed_kp c; speed_ki := speed_ki c;
     motor_gain_left := motor_gain_left c; motor_gain_right := motor_gain_right c |}.

Definition set_brake_on_stop v c :=
  {| wheel_track_mm := wheel_track_mm c; wheel_radius_mm := wheel_radius_mm c;
     min_speed_mm_per_s := min_speed_mm_per_s c;
     max_speed_mm_per_s := max_speed_mm_per_s c;
     ticks_per_revolution := ticks_per_revolution c;
     brake_on_stop := v;
     enable_speed_control := enable_speed_control c;
     speed_kp := speed_kp c; speed_ki := speed_ki c;
     motor_gain_left := motor_gain_left c; motor_gain_right := motor_gain_right c |}.

Definition set_enable_speed_control v c :=
  {| wheel_track_mm := wheel_track_mm c; wheel_radius_mm := wheel_radius_mm c;
     min_speed_mm_per_s := min_speed_mm_per_s c;
     max_speed_mm_per_s := max_speed_mm_per_s c;
     ticks_per_revolution := ticks_per_revolution c;
     brake_on_stop := brake_on_stop c;
     enable_speed_control := v;
     speed_kp := speed_kp c; speed_ki := speed_ki c;
     motor_gain_left := motor_gain_left c; motor_gain_right := motor_gain_right c |}.

Definition set_speed_kp v c :=
  {| wheel_track_mm := wheel_track_mm c; wheel_radius_mm := wheel_radius_mm c;
     min_speed_mm_per_s := min_speed_mm_per_s c;
     max_speed_mm_per_s := max_speed_mm_per_s c;
     ticks_per_revolution := ticks_per_revolution c;
     brake_on_stop := brake_on_stop c;
     enable_speed_control := enable_speed_control c;
     speed_kp := v; speed_ki := speed_ki c;
     motor_gain_left := motor_gain_left c; motor_gain_right := motor_gain_right c |}.

Definition set_speed_ki v c :=
  {| wheel_track_mm := wheel_track_mm c; wheel_radius_mm := wheel_radius_mm c;
     min_speed_mm_per_s := min_speed_mm_per_s c;
     max_speed_mm_per_s := max_speed_mm_per_s c;
     ticks_per_revolution := ticks_per_revolution c;
     brake_on_stop := brake_on_stop c;
     enable_speed_control := enable_speed_control c;
     speed_kp := speed_kp c; speed_ki := v;
     motor_gain_left := motor_gain_left c; motor_gain_right := motor_gain_right c |}.

Definition set_motor_gain_left v c :=
  {| wheel_track_mm := wheel_track_mm c; wheel_radius_mm := wheel_radius_mm c;
     min_speed_mm_per_s := min_speed_mm_per_s c;
     max_speed_mm_per_s := max_speed_mm_per_s c;
     ticks_per_revolution := ticks_per_revolution c;
     brake_on_stop := brake_on_stop c;
     enable_speed_control := enable_speed_control c;
     speed_kp := speed_kp c; speed_ki := speed_ki c;
     motor_gain_left := v; motor_gain_right := motor_gain_right c |}.

Definition set_motor_gain_right v c :=
  {| wheel_track_mm := wheel_track_mm c; wheel_radius_mm := wheel_radius_mm c;
     min_speed_mm_per_s := min_speed_mm_per_s c;
     max_speed_mm_per_s := max_speed_mm_per_s c;
     ticks_per_revolution := ticks_per_revolution c;
     brake_on_stop := brake_on_stop c;
     enable_speed_control := enable_speed_control c;
     speed_kp := speed_kp c; speed_ki := speed_ki c;
     motor_gain_left := motor_gain_left c; motor_gain_right := v |}.

(** [if (cJSON_IsNumber(item)) { cfg.field = (float)item->valuedouble; }] *)
Definition assign_if_number (item : option cJSON)
    (set : float32 -> protocol_drive_config_t -> protocol_drive_config_t)
    (cfg : protocol_drive_config_t) : protocol_drive_config_t :=
  match number_value item with
  | Some d => set (to_float d) cfg
  | None => cfg
  end.

(** [if (cJSON_IsBool(item)) { cfg.field = cJSON_IsTrue(item); }] *)
Definition assign_if_bool (item : option cJSON)
    (set : bool -> protocol_drive_config_t -> protocol_drive_config_t)
    (cfg : protocol_drive_config_t) : protocol_drive_config_t :=
  if cJSON_IsBool item then set (cJSON_IsTrue item) cfg else cfg.

(** The snapshot [handle_config_type] has built when it reaches the call:
    [cfg = {0}] and then the eleven guarded assignments in source order. *)
Definition build_drive_config (drive : cJSON) : protocol_drive_config_t :=
  let track := cJSON_GetObjectItemCaseSensitive drive "wheel_track_mm" in
  let radius := cJSON_GetObjectItemCaseSensitive drive "wheel_radius_mm" in
  let min_speed := cJSON_GetObjectItemCaseSensitive drive "min_speed_mm_per_s" in
  let max_speed := cJSON_GetObjectItemCaseSensitive drive "max_speed_mm_per_s" in
  let ticks_rev := cJSON_GetObjectItemCaseSensitive drive "ticks_per_revolution" in
  let brake := cJSON_GetObjectItemCaseSensitive drive "brake_on_stop" in
  let speed_control := cJSON_GetObjectItemCaseSensitive drive "enable_speed_control" in
  let kp := cJSON_GetObjectItemCaseSensitive drive "speed_kp" in
  let ki := cJSON_GetObjectItemCaseSensitive drive "speed_ki" in
  let gain_left := cJSON_GetObjectItemCaseSensitive drive "motor_gain_left" in
  let gain_right := cJSON_GetObjectItemCaseSensitive drive "motor_gain_right" in
  let cfg := cfg_zero in
  let cfg := assign_if_number track set_wheel_track_mm cfg in
  let cfg := assign_if_number radius set_wheel_radius_mm cfg in
  let cfg := assign_if_number min_speed set_min_speed_mm_per_s cfg in
  let cfg := assign_if_number max_speed set_max_speed_mm_per_s cfg in
  let cfg := assign_if_number ticks_rev set_ticks_per_revolution cfg in
  let cfg := assign_if_bool brake set_brake_on_stop cfg in
  let cfg := assign_if_bool speed_control set_enable_speed_control cfg in
  let cfg := assign_if_number kp set_speed_kp cfg in
  let cfg := assign_if_number ki set_speed_ki cfg in
  let cfg := assign_if_number gain_left set_motor_gain_left cfg in
  let cfg := assign_if_number gain_right set_motor_gain_right cfg in
  cfg.

(** [handle_config_type]. *)
Definition handle_config_type (root : cJSON) : M unit :=
  match cJSON_GetObjectItemCaseSensitive root "drive" with
  | Some (cJSON_Object members) =>
      let cfg := build_drive_config (cJSON_Object members) in
      call_if_bound
        (fun hs => option_map (fun f => f cfg) (set_drive_config hs))
        (call_set_drive_config cfg)
  | _ => ret tt
  end.

(** [handle_command_type]. *)
Definition handle_command_type (root : cJSON) : M unit :=
  match cJSON_GetObjectItemCaseSensitive root "command" with
  | Some (cJSON_Object members) =>
      handle_single_command_object (cJSON_Object members) ;;;
      ret tt
  | _ => ESP_LOGW "JSON command missing command object"
  end.

(** [handle_command]: the router on [type->valuestring].  [cJSON_Delete]
    frees the tree and has no counterpart here. *)
Definition handle_command (root : cJSON) (type_valuestring : string) : M unit :=
  if String.eqb type_valuestring "command" then handle_command_type root
  else if String.eqb type_valuestring "sequence" then handle_sequence_type root
  else if String.eqb type_valuestring "config" then handle_config_type root
  else ESP_LOGW ("Unknown message type: " ++ type_valuestring).

(** What a [char *] denotes as a string: the bytes before the first NUL. *)
Fixpoint c_string (bytes : list Byte.byte) : list Byte.byte :=
  match bytes with
  | [] => []
  | b :: rest => if Byte.eqb b Byte.x00 then [] else b :: c_string rest
  end.

(** [memcpy(buffer, data, len)]: reads [data[0 .. len)], which has to lie
    inside what [data] points to. *)
Definition memcpy (data : list Byte.byte) (len : Z) : M (list Byte.byte) :=
  defined (if (0 <=? len) && (len <=? Z.of_nat (List.length data))
           then Some (firstn (Z.to_nat len) data) else None).

(** [cJSON_Parse(buffer)], recorded in the trace. *)
Definition parse (buffer : list Byte.byte) : M (option cJSON) :=
  fun st => Done (cJSON_Parse buffer) st [Parsed buffer].

(** [protocol_handle_command_json(data, len)]; [size_t] is 32 bits wide,
    [buffer[len] = 0] closes the copy. *)
Definition protocol_handle_command_json (data : option (list Byte.byte)) (len : Z)
  : M unit :=
  match data with
  | None => ret tt
  | Some bytes =>
      if len =? 0 then ret tt
      else if negb (malloc_ok ((len + 1) mod 2 ^ 32)) then
        ESP_LOGE "Failed to allocate buffer for JSON parse"
      else
        copied <- memcpy bytes len ;;
        root <- parse (c_string (copied ++ [Byte.x00])) ;;
        match root with
        | None => ESP_LOGE "Failed to parse JSON command"
        | Some root =>
            let type := cJSON_GetObjectItemCaseSensitive root "type" in
            match string_value type with
            | None => ESP_LOGW "JSON command missing type"
            | Some type_valuestring => handle_command root type_valuestring
            end
        end
  end.

End Engine.

Arguments drive {World} p.
Arguments turn {World} p.
Arguments stop {World} p.
Arguments wait {World} p.
Arguments clear_queue {World} p.
Arguments set_led_hsv {World} p.
Arguments set_drive_config {World} p.
Arguments immediate {World} p.
Arguments s_handlers {World} s.
Arguments world {World} s.
Arguments Build_state {World} s_handlers world.
Arguments Done {World A} a st tr.
Arguments Undefined {World A}.
Arguments no_handlers {World}.
Arguments ret {World A} a _.
Arguments bind {World A B} m k _.
Arguments defined {World A} o _.
Arguments ESP_LOGE {World} message _.
Arguments ESP_LOGW {World} message _.
Arguments call_if_bound {World} h c _.
Arguments protocol_set_handlers {World} handlers _.
Arguments number_or {World} conv item dflt _.
Arguments handle_drive_command {World} command _.
Arguments handle_turn_command {World} command _.
Arguments handle_led_hsv_command {World} command _.
Arguments read_clock {World} esp_log_timestamp _.
Arguments handle_immediate_command {World} esp_log_timestamp command _.
Arguments handle_single_command_object {World} esp_log_timestamp command _.
Arguments sequence_step {World} esp_log_timestamp step _.
Arguments cJSON_ArrayForEach {World} elements body _.
Arguments handle_sequence_type {World} esp_log_timestamp root _.
Arguments handle_config_type {World} root _.
Arguments handle_command_type {World} esp_log_timestamp root _.
Arguments handle_command {World} esp_log_timestamp root type_valuestring _.
Arguments memcpy {World} data len _.
Arguments parse {World} cJSON_Parse buffer _.
Arguments protocol_handle_command_json {World} esp_log_timestamp cJSON_Parse
  malloc_ok data len _.

(* ================================================================== *)
(** ** Vocabulary of the specification *)

Module Spec.

(** The value an optional numeric field takes: converted when the field is
    present and a number, the default when it is absent or not a number.
    Nothing where C leaves the conversion undefined. *)
Definition field_or (conv : float -> option Z) (item : option cJSON) (dflt : Z)
  : option Z :=
  match number_value item with
  | Some d => conv d
  | None => Some dflt
  end.

(** A float field of the calibration snapshot as section 4.5 words it:
    copied when present and a number, else the zero of its type. *)
Definition float_field (drive : cJSON) (name : string) : float32 :=
  match cJSON_GetObjectItemCaseSensitive drive name with
  | Some (cJSON_Number d) => to_float d
  | _ => float32_zero
  end.

(** A boolean field of the snapshot: copied when present and a boolean. *)
Definition bool_field (drive : cJSON) (name : string) : bool :=
  match cJSON_GetObjectItemCaseSensitive drive name with
  | Some cJSON_True => true
  | _ => false
  end.

(** The complete snapshot of section 4.5, field by field. *)
Definition snapshot (drive : cJSON) : protocol_drive_config_t :=
  {| wheel_track_mm := float_field drive "wheel_track_mm";
     wheel_radius_mm := float_field drive "wheel_radius_mm";
     min_speed_mm_per_s := float_field drive "min_speed_mm_per_s";
     max_speed_mm_per_s := float_field drive "max_speed_mm_per_s";
     ticks_per_revolution := float_field drive "ticks_per_revolution";
     brake_on_stop := bool_field drive "brake_on_stop";
     enable_speed_control := bool_field drive "enable_speed_control";
     speed_kp := float_field drive "speed_kp";
     speed_ki := float_field drive "speed_ki";
     motor_gain_left := float_field drive "motor_gain_left";
     motor_gain_right := float_field drive "motor_gain_right" |}.

(** Two objects that differ at most in the member called [name]: every
    other lookup answers the same. *)
Definition differ_only_in (name : string) (a b : cJSON) : Prop :=
  forall k : string, k <> name ->
    cJSON_GetObjectItemCaseSensitive a k = cJSON_GetObjectItemCaseSensitive b k.

(** The repeat count of section 4.4: the integral part of a numeric
    [repeat], and 1 when the member is absent, not a number, not finite, or
    below 1. *)
Definition repeat_count (root : cJSON) : nat :=
  match number_value (cJSON_GetObjectItemCaseSensitive root "repeat") with
  | Some d =>
      match integral_part d with
      | Some z => if z <? 1 then 1%nat else Z.to_nat z
      | None => 1%nat
      end
  | None => 1%nat
  end.

(** [n] rounds of [m], one after the other. *)
Fixpoint times {World : Type} (n : nat) (m : M World unit) : M World unit :=
  match n with
  | O => ret tt
  | S n' => bind m (fun _ => times n' m)
  end.

(** Section 4.4 as it words repetition: the step list of a sequence is
    executed [repeat] times, round after round. *)
Definition sequence_repeats_step_list : Prop :=
  forall (World : Type) (clock : World -> Z)
         (root : cJSON) (steps : list cJSON) (st : state World),
    cJSON_GetObjectItemCaseSensitive root "steps" = Some (cJSON_Array steps) ->
    handle_command clock root "sequence" st =
      times (repeat_count root)
        (cJSON_ArrayForEach steps (sequence_step clock)) st.

(** Section 4.4 as it words full-message steps: a step that carries its own
    string [type] goes through the router, as a message of that type. *)
Definition typed_step_is_routed : Prop :=
  forall (World : Type) (clock : World -> Z)
         (s : cJSON) (type_valuestring : string) (st : state World),
    cJSON_IsObject (Some s) = true ->
    string_value (cJSON_GetObjectItemCaseSensitive s "type")
      = Some type_valuestring ->
    sequence_step clock s st = handle_command clock s type_valuestring st.




End Spec.
Export Spec.

(* ================================================================== *)
(** ** The message decoder

    The engine hands the text of a message to [cJSON_Parse], a function of
    the cJSON library.  The library is not among the files of the
    repository, so the engine above takes the parser as a parameter.  What
    follows stands for it where a property is about the decoding itself. *)

Module Decoder.

Definition text : Type := list Byte.byte.

Definition code (b : Byte.byte) : Z := Z.of_N (Byte.to_N b).

Definition quote : Byte.byte := Byte.x22.
Definition backslash : Byte.byte := Byte.x5c.
Definition lbrace : Byte.byte := Byte.x7b.
Definition rbrace : Byte.byte := Byte.x7d.
Definition lbracket : Byte.byte := Byte.x5b.
Definition rbracket : Byte.byte := Byte.x5d.
Definition colon : Byte.byte := Byte.x3a.
Definition comma : Byte.byte := Byte.x2c.

(** Space, horizontal tab, line feed, carriage return. *)
Definition is_whitespace (b : Byte.byte) : bool :=
  Byte.eqb b Byte.x20 || Byte.eqb b Byte.x09 || Byte.eqb b Byte.x0a
  || Byte.eqb b Byte.x0d.

Fixpoint skip_whitespace (t : text) : text :=
  match t with
  | b :: rest => if is_whitespace b then skip_whitespace rest else t
  | [] => []
  end.

(** *** Strings *)

(** What a string literal holds: a byte as it stands, or the 16-bit unit of
    a [\uXXXX] escape. *)
Inductive unit16 : Type :=
| Raw (b : Byte.byte)
| Escape (u : Z).

Definition hex_value (b : Byte.byte) : option Z :=
  let c := code b in
  if (48 <=? c) && (c <=? 57) then Some (c - 48)
  else if (65 <=? c) && (c <=? 70) then Some (c - 55)
  else if (97 <=? c) && (c <=? 102) then Some (c - 87)
  else None.

Definition hex4 (a b c d : Byte.byte) : option Z :=
  match hex_value a, hex_value b, hex_value c, hex_value d with
  | Some x, Some y, Some z, Some w => Some (((x * 16 + y) * 16 + z) * 16 + w)
  | _, _, _, _ => None
  end.

(** The byte a two-character escape stands for. *)
Definition escaped (e : Byte.byte) : option Byte.byte :=
  if Byte.eqb e quote then Some quote
  else if Byte.eqb e backslash then Some backslash
  else if Byte.eqb e Byte.x2f then Some Byte.x2f
  else if Byte.eqb e Byte.x62 then Some Byte.x08
  else if Byte.eqb e Byte.x66 then Some Byte.x0c
  else if Byte.eqb e Byte.x6e then Some Byte.x0a
  else if Byte.eqb e Byte.x72 then Some Byte.x0d
  else if Byte.eqb e Byte.x74 then Some Byte.x09
  else None.

(** The characters of a string literal, up to and with its closing quote.
    A control character has to be escaped. *)
Fixpoint parse_chars (t : text) : option (list unit16 * text) :=
  match t with
  | [] => None
  | b :: rest =>
      if Byte.eqb b quote then Some ([], rest)
      else if Byte.eqb b backslash then
        match rest with
        | [] => None
        | e :: rest1 =>
            if Byte.eqb e Byte.x75 then
              match rest1 with
              | h1 :: h2 :: h3 :: h4 :: rest2 =>
                  match hex4 h1 h2 h3 h4, parse_chars rest2 with
                  | Some u, Some (s, r) => Some (Escape u :: s, r)
                  | _, _ => None
                  end
              | _ => None
              end
            else
              match escaped e, parse_chars rest1 with
              | Some c, Some (s, r) => Some (Raw c :: s, r)
              | _, _ => None
              end
        end
      else if code b <? 32 then None
      else
        match parse_chars rest with
        | Some (s, r) => Some (Raw b :: s, r)
        | None => None
        end
  end.

Definition byte_of (z : Z) : Byte.byte :=
  match Byte.of_N (Z.to_N z) with Some b => b | None => Byte.x00 end.

(** UTF-8 of a code point. *)
Definition utf8 (cp : Z) : list Byte.byte :=
  if cp <? 128 then [byte_of cp]
  else if cp <? 2048 then [byte_of (192 + cp / 64); byte_of (128 + cp mod 64)]
  else if cp <? 65536 then
    [byte_of (224 + cp / 4096); byte_of (128 + (cp / 64) mod 64);
     byte_of (128 + cp mod 64)]
  else
    [byte_of (240 + cp / 262144); byte_of (128 + (cp / 4096) mod 64);
     byte_of (128 + (cp / 64) mod 64); byte_of (128 + cp mod 64)].

Definition is_high_surrogate (u : Z) : bool := (55296 <=? u) && (u <=? 56319).
Definition is_low_surrogate (u : Z) : bool := (56320 <=? u) && (u <=? 57343).

(** The bytes of the string: escapes as UTF-8, a surrogate pair as the one
    code point it stands for; a surrogate on its own is malformed. *)
Fixpoint bytes_of_units (s : list unit16) : option (list Byte.byte) :=
  match s with
  | [] => Some []
  | Raw b :: rest => option_map (cons b) (bytes_of_units rest)
  | Escape u :: rest =>
      if is_high_surrogate u then
        match rest with
        | Escape v :: rest' =>
            if is_low_surrogate v then
              option_map
                (app (utf8 (65536 + (u - 55296) * 1024 + (v - 56320))))
                (bytes_of_units rest')
            else None
        | _ => None
        end
      else if is_low_surrogate u then None
      else option_map (app (utf8 u)) (bytes_of_units rest)
  end.

(** A string literal after its opening quote. *)
Definition parse_string (t : text) : option (string * text) :=
  match parse_chars t with
  | Some (s, rest) =>
      match bytes_of_units s with
      | Some bytes => Some (string_of_list_byte bytes, rest)
      | None => None
      end
  | None => None
  end.

(** *** Numbers *)

Definition is_digit (b : Byte.byte) : bool := (48 <=? code b) && (code b <=? 57).

(** The characters a number is written with. *)
Definition is_number_char (b : Byte.byte) : bool :=
  is_digit b || Byte.eqb b Byte.x2d || Byte.eqb b Byte.x2b
  || Byte.eqb b Byte.x2e || Byte.eqb b Byte.x65 || Byte.eqb b Byte.x45.

Fixpoint span (p : Byte.byte -> bool) (t : text) : text * text :=
  match t with
  | b :: rest =>
      if p b then let (taken, after) := span p rest in (b :: taken, after)
      else ([], t)
  | [] => ([], [])
  end.

Definition Z_of_digits (ds : text) : Z :=
  fold_left (fun acc b => 10 * acc + (code b - 48)) ds 0.

(** The binary64 value nearest to [m * 10 ^ e10], ties to even, for
    [m > 0].  A negative power of ten is divided out with 66 bits more than
    the divisor has, and the remainder is kept as one more bit, so that the
    one rounding at the end is the rounding of the exact value. *)
Definition nearest_double (negative : bool) (m e10 : Z) : float :=
  let signed (z : Z) := if negative then - z else z in
  if 0 <=? e10 then
    SF2Prim (binary_normalize 53 1024 (signed (m * 10 ^ e10)) 0 false)
  else
    let divisor := 10 ^ (- e10) in
    let s := 66 + Z.log2 divisor in
    let q := (m * 2 ^ s) / divisor in
    let sticky := if (m * 2 ^ s) mod divisor =? 0 then 0 else 1 in
    SF2Prim (binary_normalize 53 1024 (signed (2 * q + sticky)) (- (s + 1)) false).

(** [m * 10 ^ e10] as a double, [m] written with [width] digits: zero and
    what lies beyond the range of a double without the long arithmetic. *)
Definition decimal (negative : bool) (m : Z) (width e10 : Z) : float :=
  if m =? 0 then (if negative then (-0)%float else 0%float)
  else if 400 <? e10 then (if negative then neg_infinity else infinity)
  else if e10 + width <? - 400 then (if negative then (-0)%float else 0%float)
  else nearest_double negative m e10.

(** The exponent part of a number, after its digits: nothing, or [e] or
    [E], a sign or none, and digits to the end. *)
Definition exponent_of (l : text) : option Z :=
  match l with
  | [] => Some 0
  | b :: rest =>
      if Byte.eqb b Byte.x65 || Byte.eqb b Byte.x45 then
        let '(negative, rest) :=
          match rest with
          | s :: rest' =>
              if Byte.eqb s Byte.x2d then (true, rest')
              else if Byte.eqb s Byte.x2b then (false, rest')
              else (false, rest)
          | [] => (false, rest)
          end in
        match span is_digit rest with
        | ((_ :: _) as ds, []) =>
            Some (if negative then - Z_of_digits ds else Z_of_digits ds)
        | _ => None
        end
      else None
  end.

(** The fraction part and what follows it. *)
Definition fraction_of (l : text) : option (text * text) :=
  match l with
  | b :: rest =>
      if Byte.eqb b Byte.x2e then
        match span is_digit rest with
        | ((_ :: _) as fs, after) => Some (fs, after)
        | _ => None
        end
      else Some ([], l)
  | [] => Some ([], [])
  end.

(** A minus sign or none, digits without a needless leading zero, a
    fraction or none, an exponent or none. *)
Definition number_of_lexeme (l : text) : option float :=
  let '(negative, l) :=
    match l with
    | b :: rest => if Byte.eqb b Byte.x2d then (true, rest) else (false, l)
    | [] => (false, l)
    end in
  let '(int, l) := span is_digit l in
  match int with
  | [] => None
  | first :: more =>
      if Byte.eqb first Byte.x30 && negb (Nat.eqb (List.length more) 0) then None
      else
        match fraction_of l with
        | Some (fs, l) =>
            match exponent_of l with
            | Some e =>
                Some (decimal negative (Z_of_digits (int ++ fs)%list)
                        (Z.of_nat (List.length (int ++ fs)%list))
                        (e - Z.of_nat (List.length fs)))
            | None => None
            end
        | None => None
        end
  end.

(** *** Values *)

Fixpoint strip_prefix (p t : text) : option text :=
  match p, t with
  | [], _ => Some t
  | a :: p', b :: t' => if Byte.eqb a b then strip_prefix p' t' else None
  | _ :: _, [] => None
  end.

Definition literal_true : text := [Byte.x74; Byte.x72; Byte.x75; Byte.x65].
Definition literal_false : text := [Byte.x66; Byte.x61; Byte.x6c; Byte.x73; Byte.x65].
Definition literal_null : text := [Byte.x6e; Byte.x75; Byte.x6c; Byte.x6c].

(** A value that is neither an object nor an array, at its first byte. *)
Definition parse_scalar (t : text) : option (cJSON * text) :=
  match t with
  | [] => None
  | b :: rest =>
      if Byte.eqb b quote then
        match parse_string rest with
        | Some (s, r) => Some (cJSON_String s, r)
        | None => None
        end
      else if is_number_char b then
        let (lexeme, r) := span is_number_char t in
        match number_of_lexeme lexeme with
        | Some d => Some (cJSON_Number d, r)
        | None => None
        end
      else
        match strip_prefix literal_true t with
        | Some r => Some (cJSON_True, r)
        | None =>
            match strip_prefix literal_false t with
            | Some r => Some (cJSON_False, r)
            | None =>
                match strip_prefix literal_null t with
                | Some r => Some (cJSON_NULL, r)
                | None => None
                end
            end
        end
  end.

(** A value with the whitespace before it; the members of an object after
    its opening brace, up to and with the closing one; the elements of an
    array likewise.  Every call that goes deeper has read at least one byte,
    so a text never needs more fuel than it has bytes. *)
Fixpoint parse_value (fuel : nat) (t : text) {struct fuel}
  : option (cJSON * text) :=
  match fuel with
  | O => None
  | S fuel =>
      match skip_whitespace t with
      | [] => None
      | b :: rest =>
          if Byte.eqb b lbrace then
            match skip_whitespace rest with
            | [] => None
            | c :: rest' =>
                if Byte.eqb c rbrace then Some (cJSON_Object [], rest')
                else
                  match parse_members fuel rest with
                  | Some (members, r) => Some (cJSON_Object members, r)
                  | None => None
                  end
            end
          else if Byte.eqb b lbracket then
            match skip_whitespace rest with
            | [] => None
            | c :: rest' =>
                if Byte.eqb c rbracket then Some (cJSON_Array [], rest')
                else
                  match parse_elements fuel rest with
                  | Some (elements, r) => Some (cJSON_Array elements, r)
                  | None => None
                  end
            end
          else parse_scalar (b :: rest)
      end
  end
with parse_members (fuel : nat) (t : text) {struct fuel}
  : option (list (string * cJSON) * text) :=
  match fuel with
  | O => None
  | S fuel =>
      match skip_whitespace t with
      | [] => None
      | b :: t1 =>
          if Byte.eqb b quote then
            match parse_string t1 with
            | None => None
            | Some (name, t2) =>
                match skip_whitespace t2 with
                | [] => None
                | c :: t3 =>
                    if Byte.eqb c colon then
                      match parse_value fuel t3 with
                      | None => None
                      | Some (v, t4) =>
                          match skip_whitespace t4 with
                          | [] => None
                          | d :: t5 =>
                              if Byte.eqb d comma then
                                match parse_members fuel t5 with
                                | Some (members, r) => Some ((name, v) :: members, r)
                                | None => None
                                end
                              else if Byte.eqb d rbrace then Some ([(name, v)], t5)
                              else None
                          end
                      end
                    else None
                end
            end
          else None
      end
  end
with parse_elements (fuel : nat) (t : text) {struct fuel}
  : option (list cJSON * text) :=
  match fuel with
  | O => None
  | S fuel =>
      match parse_value fuel t with
      | None => None
      | Some (v, t1) =>
          match skip_whitespace t1 with
          | [] => None
          | d :: t2 =>
              if Byte.eqb d comma then
                match parse_elements fuel t2 with
                | Some (elements, r) => Some (v :: elements, r)
                | None => None
                end
              else if Byte.eqb d rbracket then Some ([v], t2)
              else None
          end
      end
  end.

(** Modelled from the spec: the Message Decoder of section 4.1, which in
    the code is [cJSON_Parse]; the cJSON library is not among the files of
    the repository.  The specification has it turn the bytes into a document
    tree or fail on malformed syntax, a message being one JSON object; so
    the text has to be one JSON value (RFC 8259) between optional
    whitespace, and anything else is malformed.  A root that is not an
    object is a tree like any other here: it is the engine that has to deal
    with it. *)
Definition decode (t : text) : option cJSON :=
  match parse_value (S (List.length t)) t with
  | Some (root, rest) =>
      match skip_whitespace rest with
      | [] => Some root
      | _ :: _ => None
      end
  | None => None
  end.

(** *** Braces *)

(** Where a reader of the text is: outside every string literal, inside
    one, or inside one right after a backslash; and how many braces are
    open. *)
Inductive lexical : Type :=
| Outside (depth : nat)
| Inside (depth : nat)
| Escaped (depth : nat).

(** One byte further; nothing when a brace closes that was never opened. *)
Definition brace_step (s : lexical) (b : Byte.byte) : option lexical :=
  match s with
  | Outside d =>
      if Byte.eqb b quote then Some (Inside d)
      else if Byte.eqb b lbrace then Some (Outside (S d))
      else if Byte.eqb b rbrace then
        match d with O => None | S d' => Some (Outside d') end
      else Some (Outside d)
  | Inside d =>
      if Byte.eqb b quote then Some (Outside d)
      else if Byte.eqb b backslash then Some (Escaped d)
      else Some (Inside d)
  | Escaped d => Some (Inside d)
  end.

Fixpoint brace_scan (s : lexical) (t : text) : option lexical :=
  match t with
  | [] => Some s
  | b :: rest =>
      match brace_step s b with
      | Some s' => brace_scan s' rest
      | None => None
      end
  end.


(** A stretch of text after which a reader is where it was before:
    outside every string, at the same depth, and never below it. *)
Definition neutral (c : text) : Prop :=
  forall d : nat, brace_scan (Outside d) c = Some (Outside d).

(** A byte that is neither a quote nor a brace. *)
Definition plain (b : Byte.byte) : bool :=
  negb (Byte.eqb b quote || Byte.eqb b lbrace || Byte.eqb b rbrace).


End Decoder.

(* ================================================================== *)
(** ** A test bench

    A world that is only a clock, a table with every handler bound (each call
    takes one millisecond), the decoder for a parser, and the texts and
    documents of the scenarios. *)

Module Bench.

Definition World : Type := Z.

Definition esp_log_timestamp (w : World) : Z := w.

Definition tick (w : World) : World := w + 1.

Definition all_handlers : protocol_handlers_t World :=
  {| drive := Some (fun _ _ _ _ => tick);
     turn := Some (fun _ _ _ _ => tick);
     stop := Some tick;
     wait := Some (fun _ => tick);
     clear_queue := Some tick;
     set_led_hsv := Some (fun _ _ _ => tick);
     set_drive_config := Some (fun _ => tick);
     immediate := Some (fun _ _ _ _ => tick) |}.

(** The state [t] milliseconds after boot. *)
Definition at_time (t : Z) (hs : protocol_handlers_t World) : state World :=
  {| s_handlers := hs; world := t |}.

Definition boot (hs : protocol_handlers_t World) : state World := at_time 0 hs.

Definition malloc_ok (n : Z) : bool := true.

Definition obj (members : list (string * cJSON)) : cJSON := cJSON_Object members.
Definition str (s : string) : cJSON := cJSON_String s.
Definition num (d : float) : cJSON := cJSON_Number d.

(** JSON text written with apostrophes where the wire has double quotes. *)
Fixpoint wire (s : string) : string :=
  match s with
  | EmptyString => EmptyString
  | String c rest =>
      String (if Ascii.eqb c "039" then "034" else c)%char (wire rest)
  end.

Definition bytes_of (s : string) : list Byte.byte := list_byte_of_string (wire s).

(** Scenario A of the specification. *)
Definition text_drive : string :=
  "{'type':'command','command':{'kind':'drive','direction':'forward','speed':150,'distance':1000}}".

Definition doc_drive : cJSON :=
  obj [("type", str "command");
       ("command", obj [("kind", str "drive"); ("direction", str "forward");
                        ("speed", num 150); ("distance", num 1000)])].

(** Scenario B. *)
Definition text_repeat : string :=
  "{'type':'sequence','repeat':2,'steps':[{'kind':'stop'},{'kind':'clear_queue'}]}".

Definition doc_repeat : cJSON :=
  obj [("type", str "sequence"); ("repeat", num 2);
       ("steps", cJSON_Array [obj [("kind", str "stop")];
                              obj [("kind", str "clear_queue")]])].

(** Scenario C. *)
Definition text_config : string :=
  "{'type':'config','drive':{'wheel_track_mm':120.0,'enable_speed_control':true}}".

Definition doc_config : cJSON :=
  obj [("type", str "config");
       ("drive", obj [("wheel_track_mm", num 120);
                      ("enable_speed_control", cJSON_True)])].

(** Scenario B without its [repeat]. *)
Definition doc_once : cJSON :=
  obj [("type", str "sequence");
       ("steps", cJSON_Array [obj [("kind", str "stop")];
                              obj [("kind", str "clear_queue")]])].

(** A full message, as a sequence step would carry it. *)
Definition step_message : cJSON :=
  obj [("type", str "command"); ("command", obj [("kind", str "stop")])].

(** A bare [stop], and the same with a [type] in front. *)
Definition step_bare : cJSON := obj [("kind", str "stop")].
Definition step_typed : cJSON := obj [("type", str "config"); ("kind", str "stop")].

(** A sequence whose only step is a full message. *)
Definition text_nested : string :=
  "{'type':'sequence','steps':[{'type':'command','command':{'kind':'stop'}}]}".

Definition doc_nested : cJSON :=
  obj [("type", str "sequence");
       ("steps", cJSON_Array
          [obj [("type", str "command");
                ("command", obj [("kind", str "stop")])]])].



(** Two immediate commands that differ only in [now_ms]. *)
Definition immediate_stamped (now_ms : float) : cJSON :=
  obj [("kind", str "immediate"); ("left", num (-0.5)); ("right", num 0.5);
       ("timeout_ms", num 200); ("now_ms", num now_ms)].

(** A sequence with an unknown kind between two good steps, and the same
    sequence without it. *)
Definition step_stop : cJSON := obj [("kind", str "stop")].
Definition step_fly : cJSON := obj [("kind", str "fly")].
Definition step_clear : cJSON := obj [("kind", str "clear_queue")].

Definition doc_mixed : cJSON :=
  obj [("type", str "sequence");
       ("steps", cJSON_Array ([step_stop] ++ step_fly :: [step_clear]))].

Definition doc_clean : cJSON :=
  obj [("type", str "sequence");
       ("steps", cJSON_Array ([step_stop] ++ [step_clear]))].

(** A well-formed document whose root is an array, and a truncated one. *)
Definition text_array_root : string := "[]".

(** [cJSON_Parse] on the bench is the decoder. *)
Definition cJSON_Parse (text : list Byte.byte) : option cJSON :=
  Decoder.decode text.

(** The entry point on the bench, given the bytes of a text. *)
Definition receive (text : string) (st : state World) : outcome World unit :=
  let data := bytes_of text in
  protocol_handle_command_json esp_log_timestamp cJSON_Parse malloc_ok
    (Some data) (Z.of_nat (List.length data)) st.

Definition trace_of {A} (o : outcome World A) : option (list event) :=
  match o with Done _ _ tr => Some tr | Undefined => None end.

Definition calls_of {A} (o : outcome World A) : option (list call) :=
  option_map calls (trace_of o).

End Bench.

(* ================================================================== *)
(** ** What a run can be observed to do *)

Module Effects.

(** The nine values of [kind] that [handle_single_command_object] compares
    against, in the order of its [strcmp] chain. *)
Definition known_kinds : list string :=
  ["drive"; "turn"; "led_hsv"; "immediate"; "stop"; "wait"; "pause";
   "resume"; "clear_queue"].

Definition is_bound {A : Type} (h : option A) : bool :=
  match h with Some _ => true | None => false end.

(** Whether the table holds a handler for a call. *)
Definition bound {World : Type} (hs : protocol_handlers_t World) (c : call)
  : bool :=
  match c with
  | call_drive _ _ _ _ => is_bound (drive hs)
  | call_turn _ _ _ _ => is_bound (turn hs)
  | call_stop => is_bound (stop hs)
  | call_clear_queue => is_bound (clear_queue hs)
  | call_set_led_hsv _ _ _ => is_bound (set_led_hsv hs)
  | call_set_drive_config _ => is_bound (set_drive_config hs)
  | call_immediate _ _ _ _ => is_bound (immediate hs)
  end.

(** The texts handed to the parser in a trace, in order. *)
Fixpoint parsed (tr : list event) : list (list Byte.byte) :=
  match tr with
  | [] => []
  | Parsed text :: rest => text :: parsed rest
  | _ :: rest => parsed rest
  end.

(** What a caller can tell of one command evaluation without looking at
    the world: whether it was accepted, and what was logged. *)
Definition verdict_of {World : Type} (o : outcome World bool)
  : option (bool * list (esp_log_level_t * string)) :=
  match o with
  | Done accepted _ tr => Some (accepted, diagnostics tr)
  | Undefined => None
  end.

(** The [command] message that carries a command object. *)
Definition command_message (command : cJSON) : cJSON :=
  cJSON_Object [("type", cJSON_String "command"); ("command", command)].

(** The messages of a list dispatched one after the other as [command]
    messages. *)
Definition dispatch_commands {World : Type} (clock : World -> Z)
    (messages : list cJSON) : M World unit :=
  cJSON_ArrayForEach messages (fun m => handle_command clock m "command").

Definition is_object (item : cJSON) : bool := cJSON_IsObject (Some item).

(** What every piece of the engine keeps: the handler table is the one it
    found; every call went to a handler the table holds; the state changed
    only if a call was made; nothing was handed to the parser. *)
Definition framed {World : Type} (st st' : state World) (tr : list event)
  : Prop :=
  s_handlers st' = s_handlers st /\
  Forall (fun c => bound (s_handlers st) c = true) (calls tr) /\
  (calls tr = [] -> st' = st) /\
  parsed tr = [].

End Effects.
Export Effects.

(* ================================================================== *)
(** ** robot-mqtt: the receive path of the MQTT client

    [mqtt_handle_data] of mqtt.c reassembles a payload that arrives in
    fragments and hands the complete buffer, with its length, to the
    [on_command_json] handler (the entry point of the engine, once the
    application has bound it). *)

Module Mqtt.

(** The fields of [esp_mqtt_event_t] that [mqtt_handle_data] reads, each an
    [int]; [data] is the memory [event->data] points to. *)
Record esp_mqtt_event_t : Type := {
  data : list Byte.byte;
  data_len : Z;
  total_data_len : Z;
  current_data_offset : Z
}.

(** What the receive path did: a buffer handed to [on_command_json] with
    the length it was given, or a diagnostic with its format and arguments. *)
Inductive rx_event : Type :=
| Forwarded (buffer : list Byte.byte) (len : Z)
| Reported (level : esp_log_level_t) (format : string) (args : list Z).

(** The buffers handed over in a trace, in order. *)
Fixpoint forwarded (tr : list rx_event) : list (list Byte.byte * Z) :=
  match tr with
  | [] => []
  | Forwarded buffer len :: rest => (buffer, len) :: forwarded rest
  | Reported _ _ _ :: rest => forwarded rest
  end.

Definition kMaxJsonLen : Z := 8192.

(** [(size_t)i], 32 bits wide. *)
Definition size_t (i : Z) : Z := i mod 2 ^ 32.

(** The range of an [int]. *)
Definition is_int (i : Z) : Prop := - 2 ^ 31 <= i < 2 ^ 31.

Definition int_fields (e : esp_mqtt_event_t) : Prop :=
  is_int (data_len e) /\ is_int (total_data_len e) /\
  is_int (current_data_offset e).

Section Client.

Variable World : Type.

(** Whether [malloc] of that many bytes returns a buffer. *)
Variable malloc_ok : Z -> bool.

(** [mqtt_handlers_t]. *)
Record mqtt_handlers_t : Type := {
  on_command_json : option (list Byte.byte -> Z -> World -> World);
  on_connected : option (World -> World);
  on_disconnected : option (World -> World)
}.

Definition no_handlers : mqtt_handlers_t :=
  {| on_command_json := None; on_connected := None; on_disconnected := None |}.

(** The statics of mqtt.c and the world.  [s_rx_buffer] is [NULL] or the
    bytes written so far into the block [malloc] returned. *)
Record client : Type := {
  s_handlers : mqtt_handlers_t;
  s_rx_buffer : option (list Byte.byte);
  s_rx_buffer_len : Z;
  s_rx_expected_len : Z;
  world : World
}.

Inductive result : Type :=
| Returned (st : client) (tr : list rx_event)
| Undefined.

(** [mqtt_set_handlers]. *)
Definition mqtt_set_handlers (handlers : option mqtt_handlers_t) (st : client)
  : client :=
  {| s_handlers := match handlers with Some h => h | None => no_handlers end;
     s_rx_buffer := s_rx_buffer st;
     s_rx_buffer_len := s_rx_buffer_len st;
     s_rx_expected_len := s_rx_expected_len st;
     world := world st |}.

(** [free(s_rx_buffer); s_rx_buffer = NULL; s_rx_buffer_len = 0u;
    s_rx_expected_len = 0u;] *)
Definition rx_free (st : client) : client :=
  {| s_handlers := s_handlers st;
     s_rx_buffer := None;
     s_rx_buffer_len := 0;
     s_rx_expected_len := 0;
     world := world st |}.

(** The block under [if (event->current_data_offset == 0)]: the state it
    leaves, what it logged, and whether it returned from the function. *)
Definition start_of_payload (event : esp_mqtt_event_t) (st : client)
  : client * list rx_event * bool :=
  if current_data_offset event =? 0 then
    let st :=
      if negb (s_rx_expected_len st =? 0) || is_bound (s_rx_buffer st)
      then rx_free st else st in
    let total := size_t (total_data_len event) in
    if (total =? 0) || (kMaxJsonLen <? total) then
      (st, [Reported ESP_LOG_WARN "MQTT payload too large or zero (len=%u)" [total]],
       true)
    else if negb (malloc_ok total) then
      (st, [Reported ESP_LOG_ERROR "Failed to allocate MQTT RX buffer (%u bytes)"
              [total]],
       true)
    else
      ({| s_handlers := s_handlers st;
          s_rx_buffer := Some [];
          s_rx_buffer_len := 0;
          s_rx_expected_len := total;
          world := world st |}, [], false)
  else (st, [], false).

(** [mqtt_handle_data]. *)
Definition mqtt_handle_data (event : esp_mqtt_event_t) (st : client) : result :=
  match on_command_json (s_handlers st) with
  | None => Returned st []
  | Some handler =>
      if (total_data_len event <=? 0) || (data_len event <=? 0) then
        Returned st []
      else
        let '(st, tr, returned) := start_of_payload event st in
        if returned then Returned st tr
        else
          match s_rx_buffer st with
          | None => Returned st tr
          | Some written =>
              if s_rx_expected_len st =? 0 then Returned st tr
              else if negb (size_t (current_data_offset event) =? s_rx_buffer_len st)
              then
                Returned (rx_free st)
                  (tr ++ [Reported ESP_LOG_WARN
                            "MQTT data offset mismatch (off=%d, buf_len=%u)"
                            [current_data_offset event; s_rx_buffer_len st]])
              else if s_rx_expected_len st
                        <? size_t (s_rx_buffer_len st + size_t (data_len event))
              then
                Returned (rx_free st)
                  (tr ++ [Reported ESP_LOG_WARN
                            "MQTT data overflow (buf_len=%u, chunk=%d, expect=%u)"
                            [s_rx_buffer_len st; data_len event;
                             s_rx_expected_len st]])
              else if negb (size_t (data_len event)
                              <=? Z.of_nat (List.length (data event)))
              then Undefined
              else
                let written :=
                  (written
                     ++ firstn (Z.to_nat (size_t (data_len event))) (data event))%list in
                let len := size_t (s_rx_buffer_len st + size_t (data_len event)) in
                if len =? s_rx_expected_len st then
                  Returned
                    (rx_free {| s_handlers := s_handlers st;
                                s_rx_buffer := Some written;
                                s_rx_buffer_len := len;
                                s_rx_expected_len := s_rx_expected_len st;
                                world := handler written len (world st) |})
                    (tr ++ [Forwarded written len])
                else
                  Returned {| s_handlers := s_handlers st;
                              s_rx_buffer := Some written;
                              s_rx_buffer_len := len;
                              s_rx_expected_len := s_rx_expected_len st;
                              world := world st |} tr
          end
  end.

(** The event loop handing a series of data events to [mqtt_handle_data]. *)
Fixpoint data_events (events : list esp_mqtt_event_t) (st : client) : result :=
  match events with
  | [] => Returned st []
  | e :: rest =>
      match mqtt_handle_data e st with
      | Returned st1 tr1 =>
          match data_events rest st1 with
          | Returned st2 tr2 => Returned st2 (tr1 ++ tr2)
          | Undefined => Undefined
          end
      | Undefined => Undefined
      end
  end.

(** What the statics are between two calls when all went well: no buffer
    and both lengths zero, or a buffer holding [s_rx_buffer_len] bytes of a
    payload that is longer than that and no longer than the limit. *)
Definition rx_consistent (st : client) : Prop :=
  match s_rx_buffer st with
  | None => s_rx_buffer_len st = 0 /\ s_rx_expected_len st = 0
  | Some written =>
      s_rx_buffer_len st = Z.of_nat (List.length written) /\
      s_rx_buffer_len st < s_rx_expected_len st <= kMaxJsonLen
  end.

(** The statics while [written] of a payload of [total] bytes has arrived,
    and with no payload under way. *)
Definition pending (hs : mqtt_handlers_t) (w : World) (total : Z)
    (written : list Byte.byte) : client :=
  {| s_handlers := hs; s_rx_buffer := Some written;
     s_rx_buffer_len := Z.of_nat (List.length written);
     s_rx_expected_len := total; world := w |}.

Definition idle (hs : mqtt_handlers_t) (w : World) : client :=
  {| s_handlers := hs; s_rx_buffer := None;
     s_rx_buffer_len := 0; s_rx_expected_len := 0; world := w |}.

End Client.

Definition size (l : list Byte.byte) : Z := Z.of_nat (List.length l).

(** A buffer handed over together with its own length, which is positive
    and within the limit. *)
Definition well_formed_delivery (p : list Byte.byte * Z) : Prop :=
  snd p = Z.of_nat (List.length (fst p)) /\ 0 < snd p <= kMaxJsonLen.

(** The data events of a payload of [total] bytes that arrives as [chunks],
    the first at [offset]. *)
Fixpoint fragments (total offset : Z) (chunks : list (list Byte.byte))
  : list esp_mqtt_event_t :=
  match chunks with
  | [] => []
  | c :: rest =>
      {| data := c; data_len := Z.of_nat (List.length c);
         total_data_len := total; current_data_offset := offset |}
      :: fragments total (offset + Z.of_nat (List.length c)) rest
  end.

Arguments on_command_json {World} m.
Arguments s_handlers {World} c.
Arguments s_rx_buffer {World} c.
Arguments s_rx_buffer_len {World} c.
Arguments s_rx_expected_len {World} c.
Arguments world {World} c.
Arguments Build_client {World} s_handlers s_rx_buffer s_rx_buffer_len
  s_rx_expected_len world.
Arguments Returned {World} st tr.
Arguments Undefined {World}.
Arguments no_handlers {World}.
Arguments mqtt_set_handlers {World} handlers st.
Arguments rx_free {World} st.
Arguments start_of_payload {World} malloc_ok event st.
Arguments mqtt_handle_data {World} malloc_ok event st.
Arguments data_events {World} malloc_ok events st.
Arguments rx_consistent {World} st.
Arguments pending {World} hs w total written.
Arguments idle {World} hs w.

End Mqtt.

(* ================================================================== *)
(** ** More cases for the test bench *)

Module Cases.

Import Bench.

(** A table with only [stop] bound. *)
Definition only_stop : protocol_handlers_t Bench.World :=
  {| drive := None; turn := None; stop := Some tick; wait := None;
     clear_queue := None; set_led_hsv := None; set_drive_config := None;
     immediate := None |}.

(** [led_hsv] with all three components, with the hue alone, without it. *)
Definition led_full : cJSON :=
  obj [("kind", str "led_hsv"); ("h", num 120); ("s", num 200); ("v", num 10)].

(** A [wait] with a duration, a kind in the wrong case, an object with no
    kind, a drive without speed. *)
Definition wait_a_second : cJSON := obj [("kind", str "wait"); ("duration", num 1000)].
Definition capital_stop : cJSON := obj [("kind", str "Stop")].
Definition no_kind : cJSON := obj [("direction", str "forward")].
Definition drive_no_speed : cJSON :=
  obj [("kind", str "drive"); ("direction", str "forward")].

(** Messages the router cannot use. *)
Definition msg_telemetry : cJSON := obj [("type", str "telemetry")].
Definition msg_command_empty : cJSON := obj [("type", str "command")].
Definition msg_sequence_empty : cJSON :=
  obj [("type", str "sequence"); ("steps", str "stop")].
Definition msg_config_empty : cJSON := obj [("type", str "config")].

(** Scenario A followed by bytes that are not part of the message, and
    scenario A with a NUL and more bytes inside the announced length. *)
Definition drive_bytes : list Byte.byte := bytes_of text_drive.
Definition trailing_bytes : list Byte.byte := bytes_of "}}garbage".
Definition drive_nul_more : list Byte.byte :=
  (drive_bytes ++ Byte.x00 :: trailing_bytes)%list.

(** The application glue the README describes: the MQTT handler
    [on_command_json] is the entry point of the engine.  The world of the
    MQTT client is then the run of the engine so far. *)
Definition Robot : Type := outcome Bench.World unit.

Definition robot_boot : Robot := Done tt (boot all_handlers) [].

Definition on_message_received (buffer : list Byte.byte) (len : Z) (r : Robot)
  : Robot :=
  match r with
  | Done _ st tr =>
      match protocol_handle_command_json Bench.esp_log_timestamp
              Bench.cJSON_Parse Bench.malloc_ok (Some buffer) len st with
      | Done _ st' tr' => Done tt st' (tr ++ tr')
      | Undefined => Undefined
      end
  | Undefined => Undefined
  end.

Definition mqtt_handlers : Mqtt.mqtt_handlers_t Robot :=
  {| Mqtt.on_command_json := Some on_message_received;
     Mqtt.on_connected := None; Mqtt.on_disconnected := None |}.

(** The MQTT client right after start-up: zeroed statics. *)
Definition mqtt_boot : Mqtt.client Robot := Mqtt.idle mqtt_handlers robot_boot.

(** Scenario A cut in three fragments. *)
Definition drive_chunks : list (list Byte.byte) :=
  [firstn 10 drive_bytes; firstn 40 (skipn 10 drive_bytes); skipn 50 drive_bytes].

(** Data events that fit no payload: a fragment out of nowhere, a start, a
    fragment longer than what is left, a start announcing too much. *)
Definition odd_events : list Mqtt.esp_mqtt_event_t :=
  [ {| Mqtt.data := drive_bytes; Mqtt.data_len := 5;
       Mqtt.total_data_len := 20; Mqtt.current_data_offset := 7 |};
    {| Mqtt.data := drive_bytes; Mqtt.data_len := 5;
       Mqtt.total_data_len := 20; Mqtt.current_data_offset := 0 |};
    {| Mqtt.data := drive_bytes; Mqtt.data_len := 30;
       Mqtt.total_data_len := 20; Mqtt.current_data_offset := 5 |};
    {| Mqtt.data := drive_bytes; Mqtt.data_len := 5;
       Mqtt.total_data_len := 9000; Mqtt.current_data_offset := 0 |};
    {| Mqtt.data := drive_bytes; Mqtt.data_len := 2;
       Mqtt.total_data_len := 2; Mqtt.current_data_offset := 0 |} ].

(** Commands that fail the guard of their handler. *)
Definition turn_no_angle : cJSON :=
  obj [("kind", str "turn"); ("radius", num 100); ("speed", num 50)].
Definition immediate_no_right : cJSON :=
  obj [("kind", str "immediate"); ("left", num 1)].

(** Numbers outside the type they are converted to: a speed of three
    thousand million, a negative duration, a hue of 70000, a saturation
    of 256. *)
Definition drive_too_fast : cJSON :=
  obj [("kind", str "drive"); ("direction", str "forward");
       ("speed", num 3000000000)].
Definition drive_negative_duration : cJSON :=
  obj [("kind", str "drive"); ("direction", str "forward"); ("speed", num 150);
       ("duration", num (-5))].
Definition led_hue_70000 : cJSON := obj [("kind", str "led_hsv"); ("h", num 70000)].
Definition led_sat_256 : cJSON :=
  obj [("kind", str "led_hsv"); ("h", num 120); ("s", num 256)].

(** A heap with no block of more than 64 bytes left. *)
Definition tight_heap (n : Z) : bool := n <=? 64.

(** Data events without data. *)
Definition empty_events : list Mqtt.esp_mqtt_event_t :=
  [ {| Mqtt.data := []; Mqtt.data_len := 0;
       Mqtt.total_data_len := 0; Mqtt.current_data_offset := 0 |};
    {| Mqtt.data := drive_bytes; Mqtt.data_len := 0;
       Mqtt.total_data_len := 95; Mqtt.current_data_offset := 0 |};
    {| Mqtt.data := drive_bytes; Mqtt.data_len := 95;
       Mqtt.total_data_len := -1; Mqtt.current_data_offset := 0 |} ].

(** A drive object with gains: a number binary32 cannot hold (the double
    nearest 0.1), one that lies halfway between two binary32 values
    (16777217), a negative one, one beyond the range of binary32 (2^130),
    and two members of the wrong type. *)
Definition drive_gains : cJSON :=
  obj [("speed_kp", num 0x1.999999999999ap-4);
       ("speed_ki", num (-2.5));
       ("ticks_per_revolution", num 16777217);
       ("max_speed_mm_per_s", num 0x1p+130);
       ("motor_gain_left", num 32.5);
       ("brake_on_stop", str "yes");
       ("wheel_radius_mm", cJSON_True)].

Definition msg_config_gains : cJSON :=
  obj [("type", str "config"); ("drive", drive_gains)].

(** Two payloads of 44 bytes, a [wait] command and a message of a type
    the router does not know; the MQTT client when the first 20 bytes of
    the first have arrived; and the text made of those 20 bytes and the
    last 24 of the second. *)
Definition wait_bytes : list Byte.byte :=
  bytes_of "{'type':'command','command':{'kind':'wait'}}".
Definition comment_bytes : list Byte.byte :=
  bytes_of "{'type':'comment','command':{'kind':'stop'}}".
Definition mqtt_under_way : Mqtt.client Robot :=
  Mqtt.pending mqtt_handlers robot_boot 44 (firstn 20 wait_bytes).
Definition spliced_bytes : list Byte.byte :=
  bytes_of "{'type':'command','command':{'kind':'stop'}}".


End Cases.

(* ================================================================== *)
(** ** Properties of the engine *)

Section Properties.

Context {World : Type}.
Variable esp_log_timestamp : World -> Z.
Variable cJSON_Parse : list Byte.byte -> option cJSON.
Variable malloc_ok : Z -> bool.

Local Abbreviation get := cJSON_GetObjectItemCaseSensitive.
Local Abbreviation entry := (protocol_handle_command_json esp_log_timestamp cJSON_Parse malloc_ok).
Local Abbreviation router := (handle_command esp_log_timestamp).
Local Abbreviation evaluate := (handle_single_command_object esp_log_timestamp).
Local Abbreviation step := (sequence_step esp_log_timestamp).

#[local] Arguments cJSON_GetObjectItemCaseSensitive : simpl never.
#[local] Arguments to_int32 : simpl never.
#[local] Arguments to_uint32 : simpl never.
#[local] Arguments to_uint16 : simpl never.
#[local] Arguments to_uint8 : simpl never.
#[local] Arguments to_float : simpl never.

(** *** Guards and conversions *)

(** [number_value] and [string_value] answer exactly under the guards
    [cJSON_IsNumber] and [cJSON_IsString] of the source. *)
Lemma number_value_IsNumber (item : option cJSON) :
  cJSON_IsNumber item = true <-> exists d, number_value item = Some d.
Proof.
  destruct item as [[]|]; simpl; split;
    try discriminate; try (intros [? ?]; discriminate); eauto.
Qed.

Lemma string_value_IsString (item : option cJSON) :
  cJSON_IsString item = true <-> exists s, string_value item = Some s.
Proof.
  destruct item as [[]|]; simpl; split;
    try discriminate; try (intros [? ?]; discriminate); eauto.
Qed.

Lemma number_or_field_or conv item dflt (st : state World) :
  number_or conv item dflt st =
    match field_or conv item dflt with
    | Some z => Done z st []
    | None => Undefined
    end.
Proof.
  unfold number_or, field_or.
  destruct (number_value item) as [d|]; [|reflexivity].
  unfold defined. now destruct (conv d).
Qed.

Lemma number_or_done conv item dflt z (st : state World) :
  field_or conv item dflt = Some z -> number_or conv item dflt st = Done z st [].
Proof. intros E. now rewrite number_or_field_or, E. Qed.

Lemma is_object_inv (item : cJSON) :
  cJSON_IsObject (Some item) = true -> exists members, item = cJSON_Object members.
Proof. destruct item; simpl; try discriminate. intros _. now eexists. Qed.

(** *** The entry point *)

(** C10.  With a NULL [data] pointer, whatever the length, and with a
    length of zero, whatever the pointer, the entry point returns at once:
    the state is untouched and the trace is empty, so nothing was handed to
    the parser and no capability was invoked. *)
Theorem entry_null_or_empty_returns_at_once
    (data : option (list Byte.byte)) (len : Z) (st : state World) :
  entry None len st = Done tt st [] /\ entry data 0 st = Done tt st [].
Proof.
  split; [reflexivity|].
  destruct data; reflexivity.
Qed.

(** *** Single commands *)

(** C8.  A command message whose command object has kind [drive], a string
    [direction] and a numeric [speed] calls the [drive] handler exactly once
    when it is bound, and calls nothing when it is not; the call carries the
    direction string, the speed converted to a signed 32-bit integer, and
    [duration_ms] and [distance_mm] converted to unsigned 32-bit integers,
    each 0 when its field is absent or not a number. *)
Theorem drive_message_calls_drive_once
    (root command : cJSON) (dir : string) (sp : float) (s du di : Z)
    (st : state World) :
  get root "command" = Some command ->
  cJSON_IsObject (Some command) = true ->
  get command "kind" = Some (cJSON_String "drive") ->
  get command "direction" = Some (cJSON_String dir) ->
  get command "speed" = Some (cJSON_Number sp) ->
  to_int32 sp = Some s ->
  field_or to_uint32 (get command "duration") 0 = Some du ->
  field_or to_uint32 (get command "distance") 0 = Some di ->
  router root "command" st =
    match drive (s_handlers st) with
    | Some f =>
        Done tt {| s_handlers := s_handlers st; world := f dir s du di (world st) |}
             [Invoked (call_drive dir s du di)]
    | None => Done tt st []
    end.
Proof.
  intros Hcmd Hobj Hkind Hdir Hspeed Hs Hdu Hdi.
  destruct (is_object_inv _ Hobj) as [members ->].
  unfold handle_command, handle_command_type; simpl.
  rewrite Hcmd.
  unfold bind at 1, handle_single_command_object.
  rewrite Hkind; simpl.
  unfold handle_drive_command.
  rewrite Hdir, Hspeed; simpl.
  unfold bind, defined. rewrite Hs.
  rewrite (number_or_done _ _ _ _ _ Hdu), (number_or_done _ _ _ _ _ Hdi).
  unfold call_if_bound, ret.
  destruct (drive (s_handlers st)); reflexivity.
Qed.


(** What an accepted immediate command does.  The last argument of the call
    is the clock of the world at that moment, reduced to 32 bits. *)
Lemma immediate_accepted (command : cJSON) (l r : float) (t : Z) (st : state World) :
  get command "left" = Some (cJSON_Number l) ->
  get command "right" = Some (cJSON_Number r) ->
  field_or to_uint32 (get command "timeout_ms") 200 = Some t ->
  handle_immediate_command esp_log_timestamp command st =
    let now_ms := esp_log_timestamp (world st) mod 2 ^ 32 in
    match immediate (s_handlers st) with
    | Some f =>
        Done true
          {| s_handlers := s_handlers st;
             world := f (to_float l) (to_float r) t now_ms (world st) |}
          [Invoked (call_immediate (to_float l) (to_float r) t now_ms)]
    | None => Done true st []
    end.
Proof.
  intros Hl Hr Ht.
  unfold handle_immediate_command.
  rewrite Hl, Hr; simpl.
  unfold bind. rewrite (number_or_done _ _ _ _ _ Ht).
  unfold read_clock, call_if_bound, ret.
  destruct (immediate (s_handlers st)); reflexivity.
Qed.

(** Every field a command evaluation reads has a name other than [now_ms]:
    two command objects that differ only there evaluate alike. *)
Lemma evaluate_differ_only_in_now_ms (c1 c2 : cJSON) :
  differ_only_in "now_ms" c1 c2 ->
  forall st, evaluate c2 st = evaluate c1 st.
Proof.
  intros D st.
  unfold handle_single_command_object, handle_drive_command, handle_turn_command,
    handle_led_hsv_command, handle_immediate_command.
  repeat match goal with
         | |- context [get c1 ?k] => rewrite (D k) by discriminate
         end.
  reflexivity.
Qed.

(** C6.  For two immediate command objects that differ only in their
    [now_ms] member, evaluation gives the same outcome: the same verdict,
    the same state and the same trace, hence the same arguments of the
    call.  When the command is accepted, the [now_ms] argument of the call
    is the clock of the world at evaluation, whatever the document says. *)
Theorem immediate_now_ms_is_the_engine_clock
    (c1 c2 : cJSON) (st : state World) :
  get c1 "kind" = Some (cJSON_String "immediate") ->
  differ_only_in "now_ms" c1 c2 ->
  evaluate c2 st = evaluate c1 st /\
  forall (l r : float) (t : Z),
    get c1 "left" = Some (cJSON_Number l) ->
    get c1 "right" = Some (cJSON_Number r) ->
    field_or to_uint32 (get c1 "timeout_ms") 200 = Some t ->
    evaluate c1 st =
      let now_ms := esp_log_timestamp (world st) mod 2 ^ 32 in
      match immediate (s_handlers st) with
      | Some f =>
          Done true
            {| s_handlers := s_handlers st;
               world := f (to_float l) (to_float r) t now_ms (world st) |}
            [Invoked (call_immediate (to_float l) (to_float r) t now_ms)]
      | None => Done true st []
      end.
Proof.
  intros Hk D. split.
  - now apply evaluate_differ_only_in_now_ms.
  - intros l r t Hl Hr Ht.
    unfold handle_single_command_object. rewrite Hk; simpl.
    now apply immediate_accepted.
Qed.

(** *** Configuration *)

(** One guarded assignment, when the field still holds its zero. *)
Lemma assign_if_number_field (drive : cJSON) (name : string) set cfg cfg' :
  cfg = cfg' ->
  set float32_zero cfg' = cfg' ->
  assign_if_number (get drive name) set cfg = set (float_field drive name) cfg'.
Proof.
  intros -> Z0. unfold assign_if_number, float_field.
  destruct (get drive name) as [[]|]; simpl; congruence.
Qed.

Lemma assign_if_bool_field (drive : cJSON) (name : string) set cfg cfg' :
  cfg = cfg' ->
  set false cfg' = cfg' ->
  assign_if_bool (get drive name) set cfg = set (bool_field drive name) cfg'.
Proof.
  intros -> Z0. unfold assign_if_bool, bool_field.
  destruct (get drive name) as [[]|]; simpl; congruence.
Qed.

(** The eleven guarded assignments on the zeroed struct build the snapshot
    the specification describes field by field. *)
Lemma build_drive_config_snapshot (drive : cJSON) :
  build_drive_config drive = snapshot drive.
Proof.
  transitivity
    (set_motor_gain_right (float_field drive "motor_gain_right")
    (set_motor_gain_left (float_field drive "motor_gain_left")
    (set_speed_ki (float_field drive "speed_ki")
    (set_speed_kp (float_field drive "speed_kp")
    (set_enable_speed_control (bool_field drive "enable_speed_control")
    (set_brake_on_stop (bool_field drive "brake_on_stop")
    (set_ticks_per_revolution (float_field drive "ticks_per_revolution")
    (set_max_speed_mm_per_s (float_field drive "max_speed_mm_per_s")
    (set_min_speed_mm_per_s (float_field drive "min_speed_mm_per_s")
    (set_wheel_radius_mm (float_field drive "wheel_radius_mm")
    (set_wheel_track_mm (float_field drive "wheel_track_mm")
       cfg_zero))))))))))); [|reflexivity].
  unfold build_drive_config; cbv zeta.
  repeat match goal with
         | |- assign_if_number (get drive ?k) ?set ?cfg = ?set _ ?cfg' =>
             refine (assign_if_number_field drive k set cfg cfg' _ eq_refl)
         | |- assign_if_bool (get drive ?k) ?set ?cfg = ?set _ ?cfg' =>
             refine (assign_if_bool_field drive k set cfg cfg' _ eq_refl)
         end.
  reflexivity.
Qed.

(** C7.  A config message with a [drive] object builds one snapshot in
    which each of the eleven fields is the document's value when the member
    is present with the right type and the zero of its type otherwise, and
    hands it to [set_drive_config] exactly once when that handler is bound
    (and to nothing when it is not). *)
Theorem config_message_sets_one_complete_snapshot
    (root drive : cJSON) (st : state World) :
  get root "drive" = Some drive ->
  cJSON_IsObject (Some drive) = true ->
  router root "config" st =
    match set_drive_config (s_handlers st) with
    | Some f =>
        Done tt {| s_handlers := s_handlers st;
                   world := f (snapshot drive) (world st) |}
             [Invoked (call_set_drive_config (snapshot drive))]
    | None => Done tt st []
    end.
Proof.
  intros Hd Hobj.
  destruct (is_object_inv _ Hobj) as [members ->].
  unfold handle_command, handle_config_type; simpl.
  rewrite Hd, build_drive_config_snapshot.
  unfold call_if_bound.
  destruct (set_drive_config (s_handlers st)); reflexivity.
Qed.

(** *** Sequences *)

Lemma foreach_app (body : cJSON -> M World unit) (l1 l2 : list cJSON) st :
  cJSON_ArrayForEach (l1 ++ l2) body st =
    match cJSON_ArrayForEach l1 body st with
    | Done _ st1 tr1 =>
        match cJSON_ArrayForEach l2 body st1 with
        | Done _ st2 tr2 => Done tt st2 (tr1 ++ tr2)
        | Undefined => Undefined
        end
    | Undefined => Undefined
    end.
Proof.
  revert st. induction l1 as [|x l1 IH]; intros st; simpl.
  - unfold ret. now destruct (cJSON_ArrayForEach l2 body st) as [[] ? ?|].
  - unfold bind. destruct (body x st) as [[] sx tx|]; [|reflexivity].
    rewrite IH.
    destruct (cJSON_ArrayForEach l1 body sx) as [[] s1 t1|]; [|reflexivity].
    destruct (cJSON_ArrayForEach l2 body s1) as [[] s2 t2|]; [|reflexivity].
    now rewrite app_assoc.
Qed.

(** A command evaluation that returns [false] has written one warning and
    has done nothing else: no call, no change of state. *)
Lemma evaluate_false_inv (command : cJSON) (st st' : state World) tr :
  evaluate command st = Done false st' tr ->
  st' = st /\ exists message, tr = [Logged ESP_LOG_WARN message].
Proof.
  unfold handle_single_command_object, handle_drive_command, handle_turn_command,
    handle_led_hsv_command, handle_immediate_command, number_or, bind, defined,
    call_if_bound, read_clock, ESP_LOGW, ret.
  intros H.
  cbv beta iota in H.
  repeat match type of H with
         | context [match ?x with _ => _ end] =>
             lazymatch x with
             | context [match _ with _ => _ end] => fail
             | _ => destruct x; cbv beta iota in H; try discriminate H
             end
         end;
    injection H as Hst Htr; subst st' tr; split; try reflexivity;
    eexists; reflexivity.
Qed.

(** What the loop body does with an element it drops. *)
Lemma dropped_step (bad : cJSON) (st : state World) :
  cJSON_IsObject (Some bad) = false \/
  (exists st' tr', evaluate bad st = Done false st' tr') ->
  exists message, step bad st = Done tt st [Logged ESP_LOG_WARN message].
Proof.
  intros [N | (st' & tr' & E)]; unfold sequence_step.
  - rewrite N; simpl. now eexists.
  - destruct (cJSON_IsObject (Some bad)); simpl; [|now eexists].
    destruct (evaluate_false_inv _ _ _ _ E) as [-> [message ->]].
    exists message. unfold bind. now rewrite E.
Qed.

Lemma bind_ret_tt (m : M World unit) (st : state World) :
  bind m (fun _ => ret tt) st = m st.
Proof.
  unfold bind, ret. destruct (m st) as [[] st1 tr1|]; [|reflexivity].
  now rewrite app_nil_r.
Qed.

(** C1, as the code has it.  A sequence message whose [steps] is an array
    executes the step list once, in the order of the array, whatever its
    [repeat] member says: the executor reads [steps] and nothing else, so
    two roots with the same [steps] run alike; and when the repeat count of
    the specification is 1 (absent, not a number, below 1, or 1) this is the
    behaviour the specification asks for. *)
Theorem sequence_runs_step_list_once
    (root : cJSON) (steps : list cJSON) (st : state World) :
  get root "steps" = Some (cJSON_Array steps) ->
  router root "sequence" st = times 1 (cJSON_ArrayForEach steps step) st /\
  (forall l1 l2 : list cJSON, steps = (l1 ++ l2)%list ->
     router root "sequence" st =
       bind (cJSON_ArrayForEach l1 step)
            (fun _ => cJSON_ArrayForEach l2 step) st) /\
  (forall root' : cJSON,
     get root' "steps" = Some (cJSON_Array steps) ->
     router root' "sequence" st = router root "sequence" st) /\
  (repeat_count root = 1%nat ->
     router root "sequence" st =
       times (repeat_count root) (cJSON_ArrayForEach steps step) st).
Proof.
  intros H.
  assert (E : forall r, get r "steps" = Some (cJSON_Array steps) ->
                router r "sequence" st = cJSON_ArrayForEach steps step st).
  { intros r Hr. unfold handle_command, handle_sequence_type; simpl.
    now rewrite Hr. }
  assert (T : times 1 (cJSON_ArrayForEach steps step) st
              = cJSON_ArrayForEach steps step st).
  { simpl. apply bind_ret_tt. }
  repeat split.
  - now rewrite T, E.
  - intros l1 l2 ->. rewrite (E _ H), foreach_app. unfold bind.
    destruct (cJSON_ArrayForEach l1 step st) as [[] s1 t1|]; [|reflexivity].
    now destruct (cJSON_ArrayForEach l2 step s1) as [[] s2 t2|].
  - intros root' H'. now rewrite (E _ H), (E _ H').
  - intros ->. now rewrite T, E.
Qed.

(** An object step is always handed to the command evaluator: when it has
    no string [kind], it is dropped, whatever its [type] says. *)
Lemma step_without_kind_is_dropped (s : cJSON) (st : state World) :
  cJSON_IsObject (Some s) = true ->
  string_value (get s "kind") = None ->
  step s st = Done tt st [Logged ESP_LOG_WARN "JSON command missing kind"].
Proof.
  intros Hobj Hkind. unfold sequence_step. rewrite Hobj; simpl.
  unfold bind, handle_single_command_object. now rewrite Hkind.
Qed.

Lemma evaluate_differ_only_in_type (c1 c2 : cJSON) :
  differ_only_in "type" c1 c2 ->
  forall st, evaluate c2 st = evaluate c1 st.
Proof.
  intros D st.
  unfold handle_single_command_object, handle_drive_command, handle_turn_command,
    handle_led_hsv_command, handle_immediate_command.
  repeat match goal with
         | |- context [get c1 ?k] => rewrite (D k) by discriminate
         end.
  reflexivity.
Qed.

(** C2, as the code has it.  Every sequence step that is an object is
    evaluated directly as a bare command object, and its [type] member is
    never read: a step and the same step with a [type] added, changed or
    removed run alike.  So a full message given as a step is not routed; it
    is a command object like any other, dropped when it has no [kind]. *)
Theorem object_step_is_a_bare_command
    (s s' : cJSON) (st : state World) :
  cJSON_IsObject (Some s) = true ->
  cJSON_IsObject (Some s') = true ->
  differ_only_in "type" s s' ->
  step s st = bind (evaluate s) (fun _ => ret tt) st /\
  step s' st = step s st /\
  (string_value (get s "kind") = None ->
     step s st = Done tt st [Logged ESP_LOG_WARN "JSON command missing kind"]).
Proof.
  intros Hs Hs' D.
  unfold sequence_step. rewrite Hs, Hs'; simpl.
  repeat split.
  - unfold bind. now rewrite (evaluate_differ_only_in_type s s' D st).
  - intros Hkind. apply (step_without_kind_is_dropped s st Hs) in Hkind.
    unfold sequence_step in Hkind. now rewrite Hs in Hkind.
Qed.

(** C9.  In a sequence, a step that is not an object, or whose evaluation
    fails, is dropped with one warning and nothing else: the steps after it
    run from the very state they would run from if the step were not in the
    list, and the trace of the whole sequence is that of the sequence without
    the step, with the warning at the step's place. *)
Theorem failing_step_is_dropped_and_siblings_run
    (root root' : cJSON) (pre post : list cJSON) (bad : cJSON)
    (st st1 : state World) (tr1 : list event) :
  get root "steps" = Some (cJSON_Array (pre ++ bad :: post)) ->
  get root' "steps" = Some (cJSON_Array (pre ++ post)) ->
  cJSON_ArrayForEach pre step st = Done tt st1 tr1 ->
  cJSON_IsObject (Some bad) = false \/
    (exists st' tr', evaluate bad st1 = Done false st' tr') ->
  exists message : string,
    step bad st1 = Done tt st1 [Logged ESP_LOG_WARN message] /\
    router root "sequence" st =
      match cJSON_ArrayForEach post step st1 with
      | Done _ st2 tr2 =>
          Done tt st2 (tr1 ++ Logged ESP_LOG_WARN message :: tr2)
      | Undefined => Undefined
      end /\
    router root' "sequence" st =
      match cJSON_ArrayForEach post step st1 with
      | Done _ st2 tr2 => Done tt st2 (tr1 ++ tr2)
      | Undefined => Undefined
      end.
Proof.
  intros Hsteps Hsteps' Hpre Hbad.
  destruct (dropped_step bad st1 Hbad) as [message Hdrop].
  exists message. split; [exact Hdrop|].
  unfold handle_command, handle_sequence_type; simpl.
  rewrite Hsteps, Hsteps', !foreach_app, Hpre.
  split; [|reflexivity].
  simpl. unfold bind. rewrite Hdrop.
  now destruct (cJSON_ArrayForEach post step st1) as [[] ? ?|].
Qed.

(** *** Decoding *)


End Properties.

(* ================================================================== *)
(** ** Properties of the decoder *)

Section Decoding.

Context {World : Type}.
Variable esp_log_timestamp : World -> Z.
Variable malloc_ok : Z -> bool.

Import Decoder.
Local Open Scope list_scope.

(** *** Reading braces *)

Lemma byte_eqb_true (a b : Byte.byte) : Byte.eqb a b = true -> a = b.
Proof. apply Byte.byte_dec_bl. Qed.

Lemma brace_scan_app (s : lexical) (a b : text) :
  brace_scan s (a ++ b)
  = match brace_scan s a with
    | Some s' => brace_scan s' b
    | None => None
    end.
Proof.
  revert s. induction a as [|x a IH]; intros s; simpl; [reflexivity|].
  destruct (brace_step s x); [apply IH | reflexivity].
Qed.




Lemma neutral_nil : neutral [].
Proof. intros d. reflexivity. Qed.

Lemma neutral_app (a b : text) : neutral a -> neutral b -> neutral (a ++ b).
Proof. intros Ha Hb d. now rewrite brace_scan_app, Ha, Hb. Qed.

Lemma neutral_plain (c : text) :
  Forall (fun b => plain b = true) c -> neutral c.
Proof.
  induction 1 as [|b c Hb _ IH]; intros d; simpl; [reflexivity|].
  unfold plain in Hb. apply negb_true_iff in Hb.
  apply orb_false_iff in Hb. destruct Hb as [Hb Hr].
  apply orb_false_iff in Hb. destruct Hb as [Hq Hl].
  rewrite Hq, Hl, Hr. apply IH.
Qed.

Lemma neutral_braces (inner : text) :
  neutral inner -> neutral (lbrace :: inner ++ [rbrace]).
Proof.
  intros H d. simpl. rewrite brace_scan_app, H. reflexivity.
Qed.

Lemma whitespace_is_plain (b : Byte.byte) :
  is_whitespace b = true -> plain b = true.
Proof.
  unfold is_whitespace. intros H.
  repeat (apply orb_true_iff in H; destruct H as [H|H]);
    apply byte_eqb_true in H; subst b; reflexivity.
Qed.

Lemma neutral_whitespace (ws : text) :
  Forall (fun b => is_whitespace b = true) ws -> neutral ws.
Proof.
  intros H. apply neutral_plain. revert H. apply Forall_impl.
  exact whitespace_is_plain.
Qed.

Lemma skip_whitespace_spec (t : text) :
  exists ws : text,
    t = (ws ++ skip_whitespace t)%list /\
    Forall (fun b => is_whitespace b = true) ws.
Proof.
  induction t as [|b t (ws & E & F)]; simpl.
  - exists []. split; [reflexivity | constructor].
  - destruct (is_whitespace b) eqn:W.
    + exists (b :: ws). split; [simpl; now rewrite <- E | now constructor].
    + exists []. split; [reflexivity | constructor].
Qed.



(** *** What each parser reads *)

Lemma hex_value_plain (h : Byte.byte) (v : Z) :
  hex_value h = Some v ->
  Byte.eqb h quote = false /\ Byte.eqb h backslash = false.
Proof. destruct h; intros H; try discriminate H; split; reflexivity. Qed.

Lemma parse_chars_spec (n : nat) :
  forall (t : text) (s : list unit16) (r : text),
    (List.length t <= n)%nat ->
    parse_chars t = Some (s, r) ->
    exists body : text,
      t = (body ++ r)%list /\
      forall d, brace_scan (Inside d) body = Some (Outside d).
Proof.
  induction n as [|n IH]; intros t s r Hn H.
  - destruct t; [discriminate H | simpl in Hn; lia].
  - destruct t as [|b rest]; [discriminate H|].
    simpl in Hn. simpl in H.
    destruct (Byte.eqb b quote) eqn:Q.
    { injection H as <- <-. apply byte_eqb_true in Q. subst b.
      exists [quote]. split; [reflexivity|]. intros d. reflexivity. }
    destruct (Byte.eqb b backslash) eqn:B.
    { destruct rest as [|e rest1]; [discriminate H|].
      destruct (Byte.eqb e Byte.x75) eqn:U.
      - destruct rest1 as [|h1 [|h2 [|h3 [|h4 rest2]]]]; try discriminate H.
        destruct (hex4 h1 h2 h3 h4) as [u|] eqn:X; [|discriminate H].
        destruct (parse_chars rest2) as [[s' r']|] eqn:P; [|discriminate H].
        injection H as <- <-.
        destruct (IH rest2 s' r' ltac:(simpl in Hn; lia) P) as (body & E & S).
        exists (b :: e :: h1 :: h2 :: h3 :: h4 :: body).
        split; [simpl; now rewrite E|].
        intros d. unfold hex4 in X.
        destruct (hex_value h1) as [v1|] eqn:X1; [|discriminate X].
        destruct (hex_value h2) as [v2|] eqn:X2; [|discriminate X].
        destruct (hex_value h3) as [v3|] eqn:X3; [|discriminate X].
        destruct (hex_value h4) as [v4|] eqn:X4; [|discriminate X].
        destruct (hex_value_plain _ _ X1) as [Q1 B1].
        destruct (hex_value_plain _ _ X2) as [Q2 B2].
        destruct (hex_value_plain _ _ X3) as [Q3 B3].
        destruct (hex_value_plain _ _ X4) as [Q4 B4].
        cbn [brace_scan brace_step]. rewrite Q, B. cbn [brace_scan brace_step].
        rewrite Q1, B1. cbn [brace_scan brace_step].
        rewrite Q2, B2. cbn [brace_scan brace_step].
        rewrite Q3, B3. cbn [brace_scan brace_step].
        rewrite Q4, B4. apply S.
      - destruct (escaped e) as [c|]; [|discriminate H].
        destruct (parse_chars rest1) as [[s' r']|] eqn:P; [|discriminate H].
        injection H as <- <-.
        destruct (IH rest1 s' r' ltac:(simpl in Hn; lia) P) as (body & E & S).
        exists (b :: e :: body). split; [simpl; now rewrite E|].
        intros d. cbn [brace_scan brace_step]. rewrite Q, B. apply S. }
    destruct (code b <? 32); [discriminate H|].
    destruct (parse_chars rest) as [[s' r']|] eqn:P; [|discriminate H].
    injection H as <- <-.
    destruct (IH rest s' r' ltac:(lia) P) as (body & E & S).
    exists (b :: body). split; [simpl; now rewrite E|].
    intros d. cbn [brace_scan brace_step]. rewrite Q, B. apply S.
Qed.

Lemma parse_string_spec (t : text) (s : string) (r : text) :
  parse_string t = Some (s, r) ->
  exists body : text, t = (body ++ r)%list /\ neutral (quote :: body).
Proof.
  unfold parse_string.
  destruct (parse_chars t) as [[u r']|] eqn:P; [|discriminate].
  destruct (bytes_of_units u); [|discriminate].
  intros H. injection H as _ <-.
  destruct (parse_chars_spec (List.length t) t u r' (le_n _) P) as (body & E & S).
  exists body. split; [exact E|]. intros d. simpl. apply S.
Qed.

Lemma span_spec (p : Byte.byte -> bool) (t a r : text) :
  span p t = (a, r) -> t = (a ++ r)%list /\ Forall (fun b => p b = true) a.
Proof.
  revert a r. induction t as [|b t IH]; intros a r; simpl.
  - intros H. injection H as <- <-. split; [reflexivity | constructor].
  - destruct (p b) eqn:E.
    + destruct (span p t) as [a' r'] eqn:S. intros H. injection H as <- <-.
      destruct (IH a' r' eq_refl) as [-> F]. split; [reflexivity | now constructor].
    + intros H. injection H as <- <-. split; [reflexivity | constructor].
Qed.

Lemma number_char_is_plain (b : Byte.byte) :
  is_number_char b = true -> plain b = true.
Proof. destruct b; intros H; try discriminate H; reflexivity. Qed.

Lemma strip_prefix_spec (p t r : text) :
  strip_prefix p t = Some r -> t = (p ++ r)%list.
Proof.
  revert t. induction p as [|a p IH]; intros t; simpl.
  - intros H. now injection H as <-.
  - destruct t as [|b t]; [discriminate|].
    destruct (Byte.eqb a b) eqn:E; [|discriminate].
    apply byte_eqb_true in E. subst b. intros H. now rewrite (IH _ H).
Qed.

Lemma parse_scalar_spec (t : text) (v : cJSON) (r : text) :
  parse_scalar t = Some (v, r) ->
  cJSON_IsObject (Some v) = false /\
  exists c : text, t = (c ++ r)%list /\ neutral c.
Proof.
  unfold parse_scalar. destruct t as [|b rest]; [discriminate|].
  destruct (Byte.eqb b quote) eqn:Q.
  { destruct (parse_string rest) as [[s r']|] eqn:P; [|discriminate].
    intros H. injection H as <- <-. split; [reflexivity|].
    destruct (parse_string_spec _ _ _ P) as (body & E & N).
    apply byte_eqb_true in Q. subst b.
    exists (quote :: body). split; [simpl; now rewrite E | exact N]. }
  destruct (is_number_char b) eqn:D.
  { destruct (span is_number_char (b :: rest)) as [lexeme r'] eqn:S.
    destruct (number_of_lexeme lexeme); [|discriminate].
    intros H. injection H as <- <-. split; [reflexivity|].
    destruct (span_spec _ _ _ _ S) as [E F].
    exists lexeme. split; [exact E|].
    apply neutral_plain. revert F. apply Forall_impl. exact number_char_is_plain. }
  destruct (strip_prefix literal_true (b :: rest)) as [r1|] eqn:T.
  { intros H. injection H as <- <-. split; [reflexivity|].
    exists literal_true. split; [now apply strip_prefix_spec|].
    apply neutral_plain. repeat constructor. }
  destruct (strip_prefix literal_false (b :: rest)) as [r2|] eqn:F.
  { intros H. injection H as <- <-. split; [reflexivity|].
    exists literal_false. split; [now apply strip_prefix_spec|].
    apply neutral_plain. repeat constructor. }
  destruct (strip_prefix literal_null (b :: rest)) as [r3|] eqn:N; [|discriminate].
  intros H. injection H as <- <-. split; [reflexivity|].
  exists literal_null. split; [now apply strip_prefix_spec|].
  apply neutral_plain. repeat constructor.
Qed.

Lemma next_byte (t : text) (b : Byte.byte) (rest : text) :
  skip_whitespace t = b :: rest ->
  exists ws : text,
    t = ws ++ b :: rest /\ Forall (fun b => is_whitespace b = true) ws.
Proof.
  intros H. destruct (skip_whitespace_spec t) as (ws & E & F).
  exists ws. split; [now rewrite <- H | exact F].
Qed.

Lemma neutral_one (b : Byte.byte) : plain b = true -> neutral [b].
Proof. intros H. apply neutral_plain. now repeat constructor. Qed.

Ltac neutrality :=
  repeat match goal with
         | |- neutral (_ ++ _) => apply neutral_app
         | |- neutral [_] => apply neutral_one; reflexivity
         | |- neutral _ => assumption || (apply neutral_whitespace; assumption)
         end.

Ltac same_text :=
  repeat (rewrite <- app_assoc; cbn [app]); reflexivity.

(** What the three parsers read is neutral; an object is read as
    whitespace, an opening brace, a neutral stretch and a closing brace. *)
Lemma parse_spec (fuel : nat) :
  (forall (t : text) (v : cJSON) (r : text),
     parse_value fuel t = Some (v, r) ->
     exists c : text,
       t = c ++ r /\ neutral c /\
       (cJSON_IsObject (Some v) = true ->
        exists ws inner : text,
          c = ws ++ lbrace :: inner ++ [rbrace] /\
          Forall (fun b => is_whitespace b = true) ws /\ neutral inner)) /\
  (forall (t : text) (members : list (string * cJSON)) (r : text),
     parse_members fuel t = Some (members, r) ->
     exists inner : text, t = inner ++ rbrace :: r /\ neutral inner) /\
  (forall (t : text) (elements : list cJSON) (r : text),
     parse_elements fuel t = Some (elements, r) ->
     exists c : text, t = c ++ r /\ neutral c).
Proof.
  induction fuel as [|fuel (IHv & IHm & IHe)].
  { repeat split; intros; discriminate. }
  split; [|split].
  - intros t v r H. cbn [parse_value] in H.
    destruct (skip_whitespace t) as [|b rest] eqn:Sk; [discriminate H|].
    destruct (next_byte _ _ _ Sk) as (ws & Et & Fws).
    pose proof (neutral_whitespace ws Fws) as Nws.
    destruct (Byte.eqb b lbrace) eqn:L.
    { apply byte_eqb_true in L. subst b.
      destruct (skip_whitespace rest) as [|c rest'] eqn:Sk2; [discriminate H|].
      destruct (next_byte _ _ _ Sk2) as (ws2 & E2 & F2).
      destruct (Byte.eqb c rbrace) eqn:R.
      - apply byte_eqb_true in R. subst c. injection H as <- <-.
        exists (ws ++ lbrace :: ws2 ++ [rbrace]).
        split; [rewrite Et, E2; same_text|].
        split; [apply neutral_app; [exact Nws|];
                apply neutral_braces, neutral_whitespace, F2|].
        intros _. exists ws, ws2. repeat split; auto.
        now apply neutral_whitespace.
      - destruct (parse_members fuel rest) as [[members r']|] eqn:P; [|discriminate H].
        injection H as <- <-.
        destruct (IHm _ _ _ P) as (inner & Ei & Ni).
        exists (ws ++ lbrace :: inner ++ [rbrace]).
        split; [rewrite Et, Ei; same_text|].
        split; [apply neutral_app; [exact Nws|]; now apply neutral_braces|].
        intros _. exists ws, inner. repeat split; auto. }
    destruct (Byte.eqb b lbracket) eqn:K.
    { apply byte_eqb_true in K. subst b.
      destruct (skip_whitespace rest) as [|c rest'] eqn:Sk2; [discriminate H|].
      destruct (next_byte _ _ _ Sk2) as (ws2 & E2 & F2).
      destruct (Byte.eqb c rbracket) eqn:R.
      - apply byte_eqb_true in R. subst c. injection H as <- <-.
        exists (ws ++ [lbracket] ++ ws2 ++ [rbracket]).
        split; [rewrite Et, E2; same_text|].
        split; [|discriminate].
        neutrality.
      - destruct (parse_elements fuel rest) as [[elements r']|] eqn:P; [|discriminate H].
        injection H as <- <-.
        destruct (IHe _ _ _ P) as (c' & Ec & Nc).
        exists (ws ++ [lbracket] ++ c').
        split; [rewrite Et, Ec; same_text|].
        split; [|discriminate].
        neutrality. }
    destruct (parse_scalar_spec _ _ _ H) as (O & c & Ec & Nc).
    exists (ws ++ c). split; [rewrite Et, Ec; now rewrite app_assoc|].
    split; [now apply neutral_app|].
    intros O'. rewrite O in O'. discriminate O'.
  - intros t members r H. cbn [parse_members] in H.
    destruct (skip_whitespace t) as [|b t1] eqn:Sk; [discriminate H|].
    destruct (next_byte _ _ _ Sk) as (ws & Et & Fws).
    destruct (Byte.eqb b quote) eqn:Q; [|discriminate H].
    apply byte_eqb_true in Q. subst b.
    destruct (parse_string t1) as [[name t2]|] eqn:P; [|discriminate H].
    destruct (parse_string_spec _ _ _ P) as (body & Eb & Nb).
    destruct (skip_whitespace t2) as [|c t3] eqn:Sk2; [discriminate H|].
    destruct (next_byte _ _ _ Sk2) as (ws2 & E2 & F2).
    destruct (Byte.eqb c colon) eqn:C; [|discriminate H].
    apply byte_eqb_true in C. subst c.
    destruct (parse_value fuel t3) as [[v t4]|] eqn:V; [|discriminate H].
    destruct (IHv _ _ _ V) as (cv & Ev & Nv & _).
    destruct (skip_whitespace t4) as [|d t5] eqn:Sk3; [discriminate H|].
    destruct (next_byte _ _ _ Sk3) as (ws3 & E3 & F3).
    assert (N : neutral (ws ++ (quote :: body) ++ ws2 ++ [colon] ++ cv ++ ws3)).
    { neutrality. }
    destruct (Byte.eqb d comma) eqn:M.
    + apply byte_eqb_true in M. subst d.
      destruct (parse_members fuel t5) as [[members' r']|] eqn:P'; [|discriminate H].
      injection H as <- <-.
      destruct (IHm _ _ _ P') as (inner & Ei & Ni).
      exists ((ws ++ (quote :: body) ++ ws2 ++ [colon] ++ cv ++ ws3)
              ++ [comma] ++ inner).
      split; [rewrite Et, Eb, E2, Ev, E3, Ei; same_text|].
      neutrality.
    + destruct (Byte.eqb d rbrace) eqn:R; [|discriminate H].
      apply byte_eqb_true in R. subst d. injection H as <- <-.
      exists (ws ++ (quote :: body) ++ ws2 ++ [colon] ++ cv ++ ws3).
      split; [rewrite Et, Eb, E2, Ev, E3; same_text | exact N].
  - intros t elements r H. cbn [parse_elements] in H.
    destruct (parse_value fuel t) as [[v t1]|] eqn:V; [|discriminate H].
    destruct (IHv _ _ _ V) as (cv & Ev & Nv & _).
    destruct (skip_whitespace t1) as [|d t2] eqn:Sk; [discriminate H|].
    destruct (next_byte _ _ _ Sk) as (ws & E1 & F1).
    destruct (Byte.eqb d comma) eqn:M.
    + apply byte_eqb_true in M. subst d.
      destruct (parse_elements fuel t2) as [[elements' r']|] eqn:P; [|discriminate H].
      injection H as <- <-.
      destruct (IHe _ _ _ P) as (c & Ec & Nc).
      exists (cv ++ ws ++ [comma] ++ c).
      split; [rewrite Ev, E1, Ec; same_text|].
      neutrality.
    + destruct (Byte.eqb d rbracket) eqn:R; [|discriminate H].
      apply byte_eqb_true in R. subst d. injection H as <- <-.
      exists (cv ++ ws ++ [rbracket]).
      split; [rewrite Ev, E1; same_text|].
      neutrality.
Qed.

(** *** Texts the decoder rejects *)








(** *** Fuel *)

(** More fuel changes no result. *)
Lemma more_fuel (fuel : nat) :
  (forall t x, parse_value fuel t = Some x -> parse_value (S fuel) t = Some x) /\
  (forall t x, parse_members fuel t = Some x -> parse_members (S fuel) t = Some x) /\
  (forall t x, parse_elements fuel t = Some x -> parse_elements (S fuel) t = Some x).
Proof.
  induction fuel as [|fuel (IHv & IHm & IHe)].
  { repeat split; intros; discriminate. }
  split; [|split].
  - intros t x H. cbn [parse_value] in H.
    remember (S fuel) as f eqn:Ef. cbn [parse_value]. subst f.
    destruct (skip_whitespace t) as [|b rest]; [discriminate H|].
    destruct (Byte.eqb b lbrace).
    { destruct (skip_whitespace rest) as [|c rest']; [discriminate H|].
      destruct (Byte.eqb c rbrace); [exact H|].
      destruct (parse_members fuel rest) as [y|] eqn:P; [|discriminate H].
      now rewrite (IHm _ _ P). }
    destruct (Byte.eqb b lbracket); [|exact H].
    destruct (skip_whitespace rest) as [|c rest']; [discriminate H|].
    destruct (Byte.eqb c rbracket); [exact H|].
    destruct (parse_elements fuel rest) as [y|] eqn:P; [|discriminate H].
    now rewrite (IHe _ _ P).
  - intros t x H. cbn [parse_members] in H.
    remember (S fuel) as f eqn:Ef. cbn [parse_members]. subst f.
    destruct (skip_whitespace t) as [|b t1]; [discriminate H|].
    destruct (Byte.eqb b quote); [|discriminate H].
    destruct (parse_string t1) as [[name t2]|]; [|discriminate H].
    destruct (skip_whitespace t2) as [|c t3]; [discriminate H|].
    destruct (Byte.eqb c colon); [|discriminate H].
    destruct (parse_value fuel t3) as [[v t4]|] eqn:V; [|discriminate H].
    rewrite (IHv _ _ V).
    destruct (skip_whitespace t4) as [|d t5]; [discriminate H|].
    destruct (Byte.eqb d comma); [|exact H].
    destruct (parse_members fuel t5) as [y|] eqn:P; [|discriminate H].
    now rewrite (IHm _ _ P).
  - intros t x H. cbn [parse_elements] in H.
    remember (S fuel) as f eqn:Ef. cbn [parse_elements]. subst f.
    destruct (parse_value fuel t) as [[v t1]|] eqn:V; [|discriminate H].
    rewrite (IHv _ _ V).
    destruct (skip_whitespace t1) as [|d t2]; [discriminate H|].
    destruct (Byte.eqb d comma); [|exact H].
    destruct (parse_elements fuel t2) as [y|] eqn:P; [|discriminate H].
    now rewrite (IHe _ _ P).
Qed.

Lemma more_fuel_le (fuel fuel' : nat) :
  (fuel <= fuel')%nat ->
  (forall t x, parse_value fuel t = Some x -> parse_value fuel' t = Some x) /\
  (forall t x, parse_members fuel t = Some x -> parse_members fuel' t = Some x) /\
  (forall t x, parse_elements fuel t = Some x -> parse_elements fuel' t = Some x).
Proof.
  induction 1 as [|fuel' _ (IHv & IHm & IHe)]; [tauto|].
  destruct (more_fuel fuel') as (Mv & Mm & Me).
  repeat split; intros; auto.
Qed.

Lemma parse_scalar_reads_something (t : text) (v : cJSON) (r : text) :
  parse_scalar t = Some (v, r) -> (List.length r < List.length t)%nat.
Proof.
  unfold parse_scalar. destruct t as [|b rest]; [discriminate|].
  destruct (Byte.eqb b quote).
  { destruct (parse_string rest) as [[s r']|] eqn:P; [|discriminate].
    intros H. injection H as _ <-.
    destruct (parse_string_spec _ _ _ P) as (body & -> & _).
    cbn [List.length]. rewrite length_app. lia. }
  destruct (is_number_char b) eqn:D.
  { cbn [span]. rewrite D.
    destruct (span is_number_char rest) as [taken after] eqn:S.
    destruct (number_of_lexeme (b :: taken)); [|discriminate].
    intros H. injection H as _ <-.
    destruct (span_spec _ _ _ _ S) as [-> _].
    cbn [List.length]. rewrite length_app. lia. }
  destruct (strip_prefix literal_true (b :: rest)) as [r1|] eqn:T.
  { intros H. injection H as _ <-.
    rewrite (strip_prefix_spec _ _ _ T), length_app. simpl. lia. }
  destruct (strip_prefix literal_false (b :: rest)) as [r2|] eqn:F.
  { intros H. injection H as _ <-.
    rewrite (strip_prefix_spec _ _ _ F), length_app. simpl. lia. }
  destruct (strip_prefix literal_null (b :: rest)) as [r3|] eqn:N; [|discriminate].
  intros H. injection H as _ <-.
  rewrite (strip_prefix_spec _ _ _ N), length_app. simpl. lia.
Qed.

Ltac measure H :=
  apply (f_equal (@List.length Byte.byte)) in H;
  rewrite ?length_app in H; cbn [List.length] in H.

(** A text is read with no more fuel than the bytes that are read. *)
Lemma fuel_by_bytes (fuel : nat) :
  (forall t v r, parse_value fuel t = Some (v, r) ->
     parse_value (List.length t - List.length r) t = Some (v, r)) /\
  (forall t ms r, parse_members fuel t = Some (ms, r) ->
     parse_members (List.length t - List.length r) t = Some (ms, r)) /\
  (forall t es r, parse_elements fuel t = Some (es, r) ->
     parse_elements (List.length t - List.length r) t = Some (es, r)).
Proof.
  induction fuel as [|fuel (IHv & IHm & IHe)].
  { repeat split; intros; discriminate. }
  split; [|split].
  - intros t v r H. cbn [parse_value] in H.
    destruct (skip_whitespace t) as [|b rest] eqn:Sk; [discriminate H|].
    destruct (next_byte _ _ _ Sk) as (ws & Et & _). measure Et.
    destruct (Byte.eqb b lbrace) eqn:L.
    { destruct (skip_whitespace rest) as [|c rest'] eqn:Sk2; [discriminate H|].
      destruct (next_byte _ _ _ Sk2) as (ws2 & E2 & _). measure E2.
      destruct (Byte.eqb c rbrace) eqn:R.
      - injection H as <- <-.
        replace (List.length t - List.length rest')%nat
          with (S (List.length t - List.length rest' - 1)) by lia.
        cbn [parse_value]. now rewrite Sk, L, Sk2, R.
      - destruct (parse_members fuel rest) as [[members r']|] eqn:P; [|discriminate H].
        injection H as <- <-.
        destruct (proj1 (proj2 (parse_spec _)) _ _ _ P) as (inner & Ei & _).
        measure Ei.
        replace (List.length t - List.length r')%nat
          with (S (List.length t - List.length r' - 1)) by lia.
        cbn [parse_value]. rewrite Sk, L, Sk2, R.
        rewrite (proj1 (proj2 (more_fuel_le (List.length rest - List.length r')
                                 (List.length t - List.length r' - 1)
                                 ltac:(lia))) _ _ (IHm _ _ _ P)).
        reflexivity. }
    destruct (Byte.eqb b lbracket) eqn:K.
    { destruct (skip_whitespace rest) as [|c rest'] eqn:Sk2; [discriminate H|].
      destruct (next_byte _ _ _ Sk2) as (ws2 & E2 & _). measure E2.
      destruct (Byte.eqb c rbracket) eqn:R.
      - injection H as <- <-.
        replace (List.length t - List.length rest')%nat
          with (S (List.length t - List.length rest' - 1)) by lia.
        cbn [parse_value]. now rewrite Sk, L, K, Sk2, R.
      - destruct (parse_elements fuel rest) as [[elements r']|] eqn:P; [|discriminate H].
        injection H as <- <-.
        destruct (proj2 (proj2 (parse_spec _)) _ _ _ P) as (c' & Ec & _).
        measure Ec.
        replace (List.length t - List.length r')%nat
          with (S (List.length t - List.length r' - 1)) by lia.
        cbn [parse_value]. rewrite Sk, L, K, Sk2, R.
        rewrite (proj2 (proj2 (more_fuel_le (List.length rest - List.length r')
                                 (List.length t - List.length r' - 1)
                                 ltac:(lia))) _ _ (IHe _ _ _ P)).
        reflexivity. }
    pose proof (parse_scalar_reads_something _ _ _ H) as Hs. cbn [List.length] in Hs.
    replace (List.length t - List.length r)%nat
      with (S (List.length t - List.length r - 1)) by lia.
    cbn [parse_value]. now rewrite Sk, L, K.
  - intros t members r H. cbn [parse_members] in H.
    destruct (skip_whitespace t) as [|b t1] eqn:Sk; [discriminate H|].
    destruct (next_byte _ _ _ Sk) as (ws & Et & _). measure Et.
    destruct (Byte.eqb b quote) eqn:Q; [|discriminate H].
    destruct (parse_string t1) as [[name t2]|] eqn:P; [|discriminate H].
    destruct (parse_string_spec _ _ _ P) as (body & Eb & _). measure Eb.
    destruct (skip_whitespace t2) as [|c t3] eqn:Sk2; [discriminate H|].
    destruct (next_byte _ _ _ Sk2) as (ws2 & E2 & _). measure E2.
    destruct (Byte.eqb c colon) eqn:C; [|discriminate H].
    destruct (parse_value fuel t3) as [[v t4]|] eqn:V; [|discriminate H].
    destruct (proj1 (parse_spec _) _ _ _ V) as (cv & Ev & _). measure Ev.
    destruct (skip_whitespace t4) as [|d t5] eqn:Sk3; [discriminate H|].
    destruct (next_byte _ _ _ Sk3) as (ws3 & E3 & _). measure E3.
    destruct (Byte.eqb d comma) eqn:M.
    + destruct (parse_members fuel t5) as [[members' r']|] eqn:P'; [|discriminate H].
      injection H as <- <-.
      destruct (proj1 (proj2 (parse_spec _)) _ _ _ P') as (inner & Ei & _).
      measure Ei.
      replace (List.length t - List.length r')%nat
        with (S (List.length t - List.length r' - 1)) by lia.
      cbn [parse_members]. rewrite Sk, Q, P, Sk2, C.
      rewrite (proj1 (more_fuel_le (List.length t3 - List.length t4)
                        (List.length t - List.length r' - 1)
                        ltac:(lia)) _ _ (IHv _ _ _ V)).
      rewrite Sk3, M.
      rewrite (proj1 (proj2 (more_fuel_le (List.length t5 - List.length r')
                               (List.length t - List.length r' - 1)
                               ltac:(lia))) _ _ (IHm _ _ _ P')).
      reflexivity.
    + destruct (Byte.eqb d rbrace) eqn:R; [|discriminate H].
      injection H as <- <-.
      replace (List.length t - List.length t5)%nat
        with (S (List.length t - List.length t5 - 1)) by lia.
      cbn [parse_members]. rewrite Sk, Q, P, Sk2, C.
      rewrite (proj1 (more_fuel_le (List.length t3 - List.length t4)
                        (List.length t - List.length t5 - 1)
                        ltac:(lia)) _ _ (IHv _ _ _ V)).
      now rewrite Sk3, M, R.
  - intros t elements r H. cbn [parse_elements] in H.
    destruct (parse_value fuel t) as [[v t1]|] eqn:V; [|discriminate H].
    destruct (proj1 (parse_spec _) _ _ _ V) as (cv & Ev & _). measure Ev.
    destruct (skip_whitespace t1) as [|d t2] eqn:Sk; [discriminate H|].
    destruct (next_byte _ _ _ Sk) as (ws & E1 & _). measure E1.
    destruct (Byte.eqb d comma) eqn:M.
    + destruct (parse_elements fuel t2) as [[elements' r']|] eqn:P; [|discriminate H].
      injection H as <- <-.
      destruct (proj2 (proj2 (parse_spec _)) _ _ _ P) as (c & Ec & _).
      measure Ec.
      replace (List.length t - List.length r')%nat
        with (S (List.length t - List.length r' - 1)) by lia.
      cbn [parse_elements].
      rewrite (proj1 (more_fuel_le (List.length t - List.length t1)
                        (List.length t - List.length r' - 1)
                        ltac:(lia)) _ _ (IHv _ _ _ V)).
      rewrite Sk, M.
      rewrite (proj2 (proj2 (more_fuel_le (List.length t2 - List.length r')
                               (List.length t - List.length r' - 1)
                               ltac:(lia))) _ _ (IHe _ _ _ P)).
      reflexivity.
    + destruct (Byte.eqb d rbracket) eqn:R; [|discriminate H].
      injection H as <- <-.
      replace (List.length t - List.length t2)%nat
        with (S (List.length t - List.length t2 - 1)) by lia.
      cbn [parse_elements].
      rewrite (proj1 (more_fuel_le (List.length t - List.length t1)
                        (List.length t - List.length t2 - 1)
                        ltac:(lia)) _ _ (IHv _ _ _ V)).
      now rewrite Sk, M, R.
Qed.

(** The decoder never fails for want of fuel: what any amount of fuel
    reads, the decoder reads. *)
Lemma decoder_has_fuel_enough (fuel : nat) (t : text) (root : cJSON) (rest : text) :
  parse_value fuel t = Some (root, rest) ->
  skip_whitespace rest = [] ->
  decode t = Some root.
Proof.
  intros P W. unfold decode.
  rewrite (proj1 (more_fuel_le (List.length t - List.length rest)
                    (S (List.length t)) ltac:(lia)) _ _
             (proj1 (fuel_by_bytes fuel) _ _ _ P)).
  now rewrite W.
Qed.

(** *** The entry point on the decoder *)


End Decoding.

(* ================================================================== *)
(** ** The scenarios, on the test bench *)

Import Bench.

(** Scenario B on the code, from the bytes: the document asks for two rounds
    of [stop, clear_queue] and gets one. *)
Example scenario_B_makes_two_calls :
  Bench.cJSON_Parse (bytes_of text_repeat) = Some doc_repeat /\
  repeat_count doc_repeat = 2%nat /\
  calls_of (receive text_repeat (boot all_handlers))
    = Some [call_stop; call_clear_queue].
Proof. repeat split; vm_compute; reflexivity. Qed.

(** C1, as the specification states it, fails: with [repeat] 2 the
    specification's executor makes two rounds, the code one. *)
Lemma repeat_two_runs_one_round : ~ sequence_repeats_step_list.
Proof.
  intros claim.
  specialize (claim Bench.World Bench.esp_log_timestamp doc_repeat
                [obj [("kind", str "stop")]; obj [("kind", str "clear_queue")]]
                (boot all_handlers) eq_refl).
  vm_compute in claim. discriminate claim.
Qed.

(** C1 on the bench: scenario B makes one round, [stop] then [clear_queue],
    and so does the same document without its [repeat]. *)
Lemma sequence_runs_step_list_once_witness :
  handle_command Bench.esp_log_timestamp doc_repeat "sequence" (boot all_handlers)
    = Done tt (at_time 2 all_handlers) [Invoked call_stop; Invoked call_clear_queue] /\
  handle_command Bench.esp_log_timestamp doc_once "sequence" (boot all_handlers)
    = handle_command Bench.esp_log_timestamp doc_repeat "sequence"
        (boot all_handlers).
Proof.
  destruct (sequence_runs_step_list_once Bench.esp_log_timestamp doc_repeat
              [obj [("kind", str "stop")]; obj [("kind", str "clear_queue")]]
              (boot all_handlers) eq_refl)
    as (Honce & _ & Hsame & _).
  split.
  - exact Honce.
  - exact (Hsame doc_once eq_refl).
Defined.

(** A full message as the only step, from the bytes: nothing is called and
    the step is dropped for its missing [kind]. *)
Example nested_message_calls_nothing :
  Bench.cJSON_Parse (bytes_of text_nested) = Some doc_nested /\
  calls_of (receive text_nested (boot all_handlers)) = Some [] /\
  option_map diagnostics (trace_of (receive text_nested (boot all_handlers)))
    = Some [(ESP_LOG_WARN, "JSON command missing kind")].
Proof. repeat split; vm_compute; reflexivity. Qed.

(** C2, as the specification states it, fails: the step
    [{type: command, command: {kind: stop}}] through the router calls
    [stop]; as a step it calls nothing. *)
Lemma full_message_step_is_not_routed : ~ typed_step_is_routed.
Proof.
  intros claim.
  specialize (claim Bench.World Bench.esp_log_timestamp step_message "command"
                (boot all_handlers) eq_refl eq_refl).
  vm_compute in claim. discriminate claim.
Qed.

Lemma step_typed_differs_only_in_type : differ_only_in "type" step_bare step_typed.
Proof.
  intros k Hk. unfold step_bare, step_typed, obj. simpl.
  destruct (String.eqb k "type") eqn:E; [|reflexivity].
  apply String.eqb_eq in E. contradiction.
Qed.

(** C2 on the bench: a bare [stop] step calls [stop], and so does the same
    step with a [type] in front of it. *)
Lemma object_step_is_a_bare_command_witness :
  sequence_step Bench.esp_log_timestamp step_bare (boot all_handlers)
    = Done tt (at_time 1 all_handlers) [Invoked call_stop] /\
  sequence_step Bench.esp_log_timestamp step_typed (boot all_handlers)
    = sequence_step Bench.esp_log_timestamp step_bare (boot all_handlers).
Proof.
  destruct (object_step_is_a_bare_command Bench.esp_log_timestamp
              step_bare step_typed (boot all_handlers) eq_refl eq_refl
              step_typed_differs_only_in_type)
    as (Hbare & Hsame & _).
  split.
  - exact Hbare.
  - exact Hsame.
Defined.




Lemma immediate_stamps_differ_only_in_now_ms (a b : float) :
  differ_only_in "now_ms" (immediate_stamped a) (immediate_stamped b).
Proof.
  intros k Hk. unfold immediate_stamped, obj. simpl.
  repeat (destruct (String.eqb k _) eqn:?; [reflexivity|]).
  destruct (String.eqb k "now_ms") eqn:E; [|reflexivity].
  apply String.eqb_eq in E. contradiction.
Qed.

(** C6 on the bench, five seconds after boot: the document stamped 123456
    and the one stamped 7 evaluate alike, and the call carries 5000. *)
Lemma immediate_now_ms_witness :
  handle_single_command_object Bench.esp_log_timestamp (immediate_stamped 7)
      (at_time 5000 all_handlers)
    = handle_single_command_object Bench.esp_log_timestamp
        (immediate_stamped 123456) (at_time 5000 all_handlers) /\
  handle_single_command_object Bench.esp_log_timestamp
      (immediate_stamped 123456) (at_time 5000 all_handlers)
    = Done true (at_time 5001 all_handlers)
        [Invoked (call_immediate (to_float (-0.5)) (to_float 0.5) 200 5000)].
Proof.
  pose proof (immediate_now_ms_is_the_engine_clock Bench.esp_log_timestamp
                (immediate_stamped 123456) (immediate_stamped 7)
                (at_time 5000 all_handlers) eq_refl
                (immediate_stamps_differ_only_in_now_ms 123456 7)) as [Hsame Hcall].
  split.
  - exact Hsame.
  - exact (Hcall (-0.5)%float 0.5%float 200 eq_refl eq_refl eq_refl).
Defined.

(** C7 on the bench: scenario C gives the snapshot with a track of 120 mm
    (the binary32 value 15728640 x 2^-17) and speed control on, everything
    else zero or false, in one call, also when the document comes in as
    bytes.  A drive object with gains gives each its binary32 value: the
    double nearest 0.1 rounds to 13421773 x 2^-27, 16777217 to 2^24 (the tie
    goes to the even mantissa), -2.5 and 32.5 are kept exactly, 2^130 is
    beyond binary32 and becomes an infinity; the members of the wrong type
    leave their fields at zero and false. *)
Lemma config_message_witness :
  handle_command Bench.esp_log_timestamp doc_config "config" (boot all_handlers)
    = Done tt (at_time 1 all_handlers)
        [Invoked (call_set_drive_config
           {| wheel_track_mm := S754_finite false 15728640 (-17);
              wheel_radius_mm := S754_zero false;
              min_speed_mm_per_s := S754_zero false;
              max_speed_mm_per_s := S754_zero false;
              ticks_per_revolution := S754_zero false;
              brake_on_stop := false;
              enable_speed_control := true;
              speed_kp := S754_zero false;
              speed_ki := S754_zero false;
              motor_gain_left := S754_zero false;
              motor_gain_right := S754_zero false |})] /\
  calls_of (receive text_config (boot all_handlers))
    = Some [call_set_drive_config
              {| wheel_track_mm := S754_finite false 15728640 (-17);
                 wheel_radius_mm := S754_zero false;
                 min_speed_mm_per_s := S754_zero false;
                 max_speed_mm_per_s := S754_zero false;
                 ticks_per_revolution := S754_zero false;
                 brake_on_stop := false;
                 enable_speed_control := true;
                 speed_kp := S754_zero false;
                 speed_ki := S754_zero false;
                 motor_gain_left := S754_zero false;
                 motor_gain_right := S754_zero false |}] /\
  handle_command Bench.esp_log_timestamp Cases.msg_config_gains "config"
    (boot all_handlers)
    = Done tt (at_time 1 all_handlers)
        [Invoked (call_set_drive_config
           {| wheel_track_mm := S754_zero false;
              wheel_radius_mm := S754_zero false;
              min_speed_mm_per_s := S754_zero false;
              max_speed_mm_per_s := S754_infinity false;
              ticks_per_revolution := S754_finite false 8388608 1;
              brake_on_stop := false;
              enable_speed_control := false;
              speed_kp := S754_finite false 13421773 (-27);
              speed_ki := S754_finite true 10485760 (-22);
              motor_gain_left := S754_finite false 8519680 (-18);
              motor_gain_right := S754_zero false |})].
Proof.
  split; [|split].
  - exact (config_message_sets_one_complete_snapshot Bench.esp_log_timestamp
             doc_config
             (obj [("wheel_track_mm", num 120); ("enable_speed_control", cJSON_True)])
             (boot all_handlers) eq_refl eq_refl).
  - reflexivity.
  - exact (config_message_sets_one_complete_snapshot Bench.esp_log_timestamp
             Cases.msg_config_gains Cases.drive_gains
             (boot all_handlers) eq_refl eq_refl).
Defined.

(** C8 on the bench: scenario A calls [drive("forward", 150, 0, 1000)],
    once, also when the document comes in as bytes. *)
Lemma drive_message_witness :
  handle_command Bench.esp_log_timestamp doc_drive "command" (boot all_handlers)
    = Done tt (at_time 1 all_handlers)
        [Invoked (call_drive "forward" 150 0 1000)] /\
  calls_of (receive text_drive (boot all_handlers))
    = Some [call_drive "forward" 150 0 1000].
Proof.
  split.
  - exact (drive_message_calls_drive_once Bench.esp_log_timestamp doc_drive
             (obj [("kind", str "drive"); ("direction", str "forward");
                   ("speed", num 150); ("distance", num 1000)])
             "forward" 150%float 150 0 1000 (boot all_handlers)
             eq_refl eq_refl eq_refl eq_refl eq_refl eq_refl eq_refl eq_refl).
  - reflexivity.
Defined.

(** C9 on the bench: the unknown kind between [stop] and [clear_queue] costs
    one warning; both neighbours are called, as in the sequence without it. *)
Lemma failing_step_witness :
  exists message : string,
    handle_command Bench.esp_log_timestamp doc_mixed "sequence" (boot all_handlers)
      = Done tt (at_time 2 all_handlers)
          [Invoked call_stop; Logged ESP_LOG_WARN message; Invoked call_clear_queue] /\
    handle_command Bench.esp_log_timestamp doc_clean "sequence" (boot all_handlers)
      = Done tt (at_time 2 all_handlers)
          [Invoked call_stop; Invoked call_clear_queue].
Proof.
  destruct (failing_step_is_dropped_and_siblings_run Bench.esp_log_timestamp
              doc_mixed doc_clean [step_stop] [step_clear] step_fly
              (boot all_handlers) (at_time 1 all_handlers) [Invoked call_stop]
              eq_refl eq_refl eq_refl
              (or_intror (ex_intro _ _ (ex_intro _ _ eq_refl))))
    as (message & _ & Hmixed & Hclean).
  exists message. split; [exact Hmixed | exact Hclean].
Defined.

(* ================================================================== *)
(** ** Further properties of the engine *)

Section Effects_of_a_run.

Context {World : Type}.
Variable esp_log_timestamp : World -> Z.
Variable cJSON_Parse : list Byte.byte -> option cJSON.
Variable malloc_ok : Z -> bool.

Local Abbreviation get := cJSON_GetObjectItemCaseSensitive.
Local Abbreviation entry := (protocol_handle_command_json esp_log_timestamp cJSON_Parse malloc_ok).
Local Abbreviation router := (handle_command esp_log_timestamp).
Local Abbreviation evaluate := (handle_single_command_object esp_log_timestamp).
Local Abbreviation step := (sequence_step esp_log_timestamp).

#[local] Arguments cJSON_GetObjectItemCaseSensitive : simpl never.
#[local] Arguments to_int32 : simpl never.
#[local] Arguments to_uint32 : simpl never.
#[local] Arguments to_uint16 : simpl never.
#[local] Arguments to_uint8 : simpl never.
#[local] Arguments to_float : simpl never.

(** *** Traces *)

Lemma calls_app (t1 t2 : list event) : calls (t1 ++ t2) = (calls t1 ++ calls t2)%list.
Proof.
  induction t1 as [|e t1 IH]; simpl; [reflexivity|].
  destruct e; simpl; now rewrite IH.
Qed.

Lemma diagnostics_app (t1 t2 : list event) :
  diagnostics (t1 ++ t2) = (diagnostics t1 ++ diagnostics t2)%list.
Proof.
  induction t1 as [|e t1 IH]; simpl; [reflexivity|].
  destruct e; simpl; now rewrite IH.
Qed.

Lemma parsed_app (t1 t2 : list event) :
  parsed (t1 ++ t2) = (parsed t1 ++ parsed t2)%list.
Proof.
  induction t1 as [|e t1 IH]; simpl; [reflexivity|].
  destruct e; simpl; now rewrite IH.
Qed.

Lemma framed_nil (st : state World) : framed st st [].
Proof. repeat split; auto. Qed.

Lemma framed_log (st : state World) level message :
  framed st st [Logged level message].
Proof. repeat split; simpl; auto. Qed.

Lemma framed_app (st st1 st2 : state World) (tr1 tr2 : list event) :
  framed st st1 tr1 -> framed st1 st2 tr2 -> framed st st2 (tr1 ++ tr2).
Proof.
  intros (H1 & B1 & S1 & P1) (H2 & B2 & S2 & P2).
  repeat split.
  - congruence.
  - rewrite calls_app. apply Forall_app. split; [exact B1|].
    now rewrite H1 in B2.
  - rewrite calls_app. intros E. apply app_eq_nil in E. destruct E as [E1 E2].
    rewrite (S2 E2). exact (S1 E1).
  - now rewrite parsed_app, P1, P2.
Qed.

(** One command evaluation: framed, at most one call, and the verdict and
    the trace agree (a warning exactly when rejected). *)
Lemma evaluate_effect (command : cJSON) (st st' : state World)
    (accepted : bool) (tr : list event) :
  evaluate command st = Done accepted st' tr ->
  framed st st' tr /\
  (List.length (calls tr) <= 1)%nat /\
  (accepted = true -> diagnostics tr = []) /\
  (accepted = false ->
     st' = st /\ exists message, tr = [Logged ESP_LOG_WARN message]).
Proof.
  unfold handle_single_command_object, handle_drive_command, handle_turn_command,
    handle_led_hsv_command, handle_immediate_command, number_or, bind, defined,
    call_if_bound, read_clock, ESP_LOGW, ret, option_map.
  intros H. cbv beta iota in H.
  repeat match type of H with
         | context [match ?x with _ => _ end] =>
             lazymatch x with
             | context [match _ with _ => _ end] => fail
             | _ => let E := fresh "E" in
                    destruct x eqn:E; cbv beta iota in H; try discriminate H
             end
         end;
    injection H as Hacc Hst Htr; subst accepted st' tr; simpl;
    (split; [|split; [|split]]);
    try (intros; discriminate);
    try lia;
    try reflexivity;
    try (intros _; split; [reflexivity | eexists; reflexivity]);
    unfold framed; simpl; repeat split; auto;
    try (intros; discriminate);
    try (constructor; [|constructor]; unfold bound, is_bound;
         match goal with E : _ = Some _ |- _ => now rewrite E end).
Qed.

Lemma step_effect (s : cJSON) (st st' : state World) (tr : list event) :
  step s st = Done tt st' tr ->
  framed st st' tr /\ (List.length (calls tr) <= 1)%nat.
Proof.
  unfold sequence_step.
  destruct (negb (cJSON_IsObject (Some s))).
  - unfold ESP_LOGW. intros H. injection H as <- <-.
    split; [apply framed_log | simpl; lia].
  - unfold bind, ret.
    destruct (evaluate s st) as [b s1 t1|] eqn:E; [|discriminate].
    intros H. injection H as <- <-. rewrite app_nil_r.
    destruct (evaluate_effect _ _ _ _ _ E) as (F & L & _). now split.
Qed.

Lemma foreach_effect (steps : list cJSON) (st st' : state World) (tr : list event) :
  cJSON_ArrayForEach steps step st = Done tt st' tr ->
  framed st st' tr /\ (List.length (calls tr) <= List.length steps)%nat.
Proof.
  revert st st' tr. induction steps as [|s steps IH]; intros st st' tr; simpl.
  - unfold ret. intros H. injection H as <- <-. split; [apply framed_nil | simpl; lia].
  - unfold bind.
    destruct (step s st) as [[] s1 t1|] eqn:E1; [|discriminate].
    destruct (cJSON_ArrayForEach steps step s1) as [[] s2 t2|] eqn:E2; [|discriminate].
    intros H. injection H as <- <-.
    destruct (step_effect _ _ _ _ E1) as [F1 L1].
    destruct (IH _ _ _ E2) as [F2 L2].
    split; [exact (framed_app _ _ _ _ _ F1 F2)|].
    rewrite calls_app, length_app. lia.
Qed.

Lemma router_effect (root : cJSON) (type_valuestring : string)
    (st st' : state World) (tr : list event) :
  router root type_valuestring st = Done tt st' tr ->
  framed st st' tr.
Proof.
  unfold handle_command.
  destruct (String.eqb type_valuestring "command").
  { unfold handle_command_type.
    destruct (get root "command") as [[]|];
      try (unfold ESP_LOGW; intros H; injection H as <- <-; apply framed_log).
    unfold bind, ret.
    destruct (evaluate (cJSON_Object child) st) as [b s1 t1|] eqn:E; [|discriminate].
    intros H. injection H as <- <-. rewrite app_nil_r.
    now destruct (evaluate_effect _ _ _ _ _ E) as (F & _). }
  destruct (String.eqb type_valuestring "sequence").
  { unfold handle_sequence_type.
    destruct (get root "steps") as [[]|];
      try (unfold ESP_LOGW; intros H; injection H as <- <-; apply framed_log).
    intros H. now destruct (foreach_effect _ _ _ _ H). }
  destruct (String.eqb type_valuestring "config").
  { unfold handle_config_type.
    destruct (get root "drive") as [[]|];
      try (unfold ret; intros H; injection H as <- <-; apply framed_nil).
    unfold call_if_bound.
    destruct (option_map _ (set_drive_config (s_handlers st))) as [f|] eqn:E;
      intros H; injection H as <- <-; [|apply framed_nil].
    repeat split; simpl; auto; try discriminate.
    constructor; [|constructor]. unfold bound, is_bound.
    destruct (set_drive_config (s_handlers st)); [reflexivity | discriminate E]. }
  unfold ESP_LOGW. intros H. injection H as <- <-. apply framed_log.
Qed.

(** The entry point: as [framed], but for the one text it may parse. *)
Lemma entry_effect (data : option (list Byte.byte)) (len : Z)
    (st st' : state World) (tr : list event) :
  entry data len st = Done tt st' tr ->
  s_handlers st' = s_handlers st /\
  Forall (fun c => bound (s_handlers st) c = true) (calls tr) /\
  (calls tr = [] -> st' = st) /\
  (List.length (parsed tr) <= 1)%nat.
Proof.
  unfold protocol_handle_command_json.
  assert (Z0 : forall s : state World,
             s_handlers s = s_handlers s /\
             Forall (fun c => bound (s_handlers s) c = true) (calls []) /\
             (calls [] = [] -> s = s) /\ (List.length (parsed []) <= 1)%nat).
  { intros s. repeat split; simpl; auto. }
  destruct data as [bytes|]; [|unfold ret; intros H; injection H as <- <-; apply Z0].
  destruct (len =? 0); [unfold ret; intros H; injection H as <- <-; apply Z0|].
  destruct (negb (malloc_ok ((len + 1) mod 2 ^ 32))).
  { unfold ESP_LOGE. intros H. injection H as <- <-. repeat split; simpl; auto. }
  unfold bind, memcpy, defined, parse.
  destruct ((0 <=? len) && (len <=? Z.of_nat (List.length bytes))); [|discriminate].
  destruct (cJSON_Parse _) as [root|].
  - destruct (string_value (get root "type")) as [ty|].
    + destruct (router root ty st) as [[] s1 t1|] eqn:E; [|discriminate].
      intros H. injection H as <- <-.
      destruct (router_effect _ _ _ _ _ E) as (F1 & F2 & F3 & F4).
      simpl. rewrite F4. repeat split; auto.
    + unfold ESP_LOGW. intros H. injection H as <- <-. repeat split; simpl; auto.
  - unfold ESP_LOGE. intros H. injection H as <- <-. repeat split; simpl; auto.
Qed.

(** *** Invariants of a dispatch *)

(** X1.  No message changes the handler table: whatever bytes the entry
    point is given, the table after the run is the table before it. *)
Theorem dispatch_keeps_handler_table
    (data : option (list Byte.byte)) (len : Z)
    (st st' : state World) (tr : list event) :
  entry data len st = Done tt st' tr ->
  s_handlers st' = s_handlers st.
Proof. intros H. now destruct (entry_effect _ _ _ _ _ H). Qed.

(** X2.  Every call the engine makes goes to a handler the table holds: an
    unbound capability is never invoked, whatever the message. *)
Theorem dispatch_calls_only_bound_handlers
    (data : option (list Byte.byte)) (len : Z)
    (st st' : state World) (tr : list event) :
  entry data len st = Done tt st' tr ->
  Forall (fun c => bound (s_handlers st) c = true) (calls tr).
Proof. intros H. now destruct (entry_effect _ _ _ _ _ H) as (_ & B & _). Qed.

Lemma entry_unbound (data : option (list Byte.byte)) (len : Z)
    (st st' : state World) (tr : list event) :
  s_handlers st = no_handlers ->
  entry data len st = Done tt st' tr ->
  calls tr = [] /\ st' = st.
Proof.
  intros E H. destruct (entry_effect _ _ _ _ _ H) as (_ & B & S & _).
  assert (C : calls tr = []).
  { destruct (calls tr) as [|c rest]; [reflexivity|].
    inversion B as [|? ? Hc _]; subst. rewrite E in Hc.
    destruct c; discriminate Hc. }
  split; [exact C | exact (S C)].
Qed.

(** X3.  The engine touches the world only through the handlers: a run
    that makes no call leaves the state as it was, and with an empty table
    no message makes a call or changes anything. *)
Theorem dispatch_changes_state_only_through_calls
    (data : option (list Byte.byte)) (len : Z)
    (st st' : state World) (tr : list event) :
  entry data len st = Done tt st' tr ->
  (calls tr = [] -> st' = st) /\
  (s_handlers st = no_handlers -> calls tr = [] /\ st' = st).
Proof.
  intros H. split.
  - now destruct (entry_effect _ _ _ _ _ H) as (_ & _ & S & _).
  - intros E. exact (entry_unbound _ _ _ _ _ E H).
Qed.

(** X4.  A sequence makes at most one call per step. *)
Theorem sequence_makes_at_most_one_call_per_step
    (root : cJSON) (steps : list cJSON) (st st' : state World) (tr : list event) :
  get root "steps" = Some (cJSON_Array steps) ->
  router root "sequence" st = Done tt st' tr ->
  (List.length (calls tr) <= List.length steps)%nat.
Proof.
  intros Hs. unfold handle_command, handle_sequence_type; simpl. rewrite Hs.
  intros H. now destruct (foreach_effect _ _ _ _ H).
Qed.

(** X5.  The verdict of a command evaluation and its trace agree: an
    accepted command logs nothing and makes at most one call; a rejected
    one logs exactly one warning, makes no call and leaves the state as it
    was. *)
Theorem verdict_and_trace_agree
    (command : cJSON) (st st' : state World) (accepted : bool) (tr : list event) :
  evaluate command st = Done accepted st' tr ->
  (accepted = true ->
     diagnostics tr = [] /\ (List.length (calls tr) <= 1)%nat) /\
  (accepted = false ->
     st' = st /\ calls tr = [] /\
     exists message, diagnostics tr = [(ESP_LOG_WARN, message)]).
Proof.
  intros H. destruct (evaluate_effect _ _ _ _ _ H) as (_ & L & A & R).
  split.
  - intros E. split; [exact (A E) | exact L].
  - intros E. destruct (R E) as [-> [message ->]].
    split; [reflexivity|]. split; [reflexivity|]. now exists message.
Qed.

(** X6.  Whether a command is accepted, and what is logged, depends on
    the command object alone: not on the handler table, not on the world,
    not on the clock. *)
Theorem verdict_depends_on_document_only
    (command : cJSON) (st1 st2 : state World) :
  verdict_of (evaluate command st1) = verdict_of (evaluate command st2).
Proof.
  unfold handle_single_command_object, handle_drive_command, handle_turn_command,
    handle_led_hsv_command, handle_immediate_command, number_or, bind, defined,
    call_if_bound, read_clock, ESP_LOGW, ret, option_map, verdict_of.
  cbv beta iota.
  repeat match goal with
         | |- context [match ?x with _ => _ end] =>
             lazymatch x with
             | context [match _ with _ => _ end] => fail
             | _ => destruct x; cbv beta iota
             end
         end;
    reflexivity.
Qed.

(** *** How messages compose *)

Lemma step_is_command_message (s : cJSON) (st : state World) :
  is_object s = true ->
  step s st = router (command_message s) "command" st.
Proof.
  intros H. destruct s; try discriminate H. reflexivity.
Qed.

(** X7.  A sequence whose steps are all objects does what the same
    command objects do when each is sent as a [command] message of its own,
    in the same order. *)
Theorem sequence_is_a_series_of_command_messages
    (root : cJSON) (steps : list cJSON) (st : state World) :
  get root "steps" = Some (cJSON_Array steps) ->
  forallb is_object steps = true ->
  router root "sequence" st
    = dispatch_commands esp_log_timestamp (map command_message steps) st.
Proof.
  intros Hs Hobj.
  unfold handle_command at 1, handle_sequence_type, dispatch_commands; simpl.
  rewrite Hs. clear Hs. revert st.
  induction steps as [|s steps IH]; intros st; simpl; [reflexivity|].
  simpl in Hobj. apply andb_true_iff in Hobj. destruct Hobj as [Hs Hrest].
  unfold bind. rewrite (step_is_command_message s st Hs).
  destruct (router (command_message s) "command" st) as [[] s1 t1|]; [|reflexivity].
  now rewrite (IH Hrest).
Qed.

(** *** The bytes the entry point reads *)

Lemma firstn_within {A : Type} (n : nat) (l extra : list A) :
  (n <= List.length l)%nat -> firstn n (l ++ extra)%list = firstn n l.
Proof.
  intros H. rewrite firstn_app.
  replace (n - List.length l)%nat with 0%nat by lia.
  simpl. apply app_nil_r.
Qed.

(** X8.  The entry point reads [data[0 .. len)] and nothing after it:
    whatever follows the first [len] bytes in memory, the run is the same. *)
Theorem entry_never_reads_past_len
    (bytes extra : list Byte.byte) (len : Z) (st : state World) :
  len <= Z.of_nat (List.length bytes) ->
  entry (Some (bytes ++ extra)%list) len st = entry (Some bytes) len st.
Proof.
  intros Hlen. unfold protocol_handle_command_json, memcpy, bind, defined.
  destruct (len =? 0); [reflexivity|].
  destruct (negb (malloc_ok ((len + 1) mod 2 ^ 32))); [reflexivity|].
  destruct (0 <=? len) eqn:E0; simpl; [|reflexivity].
  apply Z.leb_le in E0.
  assert (E1 : (len <=? Z.of_nat (List.length bytes)) = true) by (apply Z.leb_le; lia).
  assert (E2 : (len <=? Z.of_nat (List.length (bytes ++ extra))) = true).
  { apply Z.leb_le. rewrite length_app. lia. }
  rewrite E1, E2, firstn_within by lia.
  reflexivity.
Qed.

Lemma c_string_prefix (l : list Byte.byte) :
  exists rest : list Byte.byte,
    l = (c_string (l ++ [Byte.x00]) ++ rest)%list /\
    ~ In Byte.x00 (c_string (l ++ [Byte.x00])) /\
    (rest = [] \/ exists r, rest = Byte.x00 :: r).
Proof.
  induction l as [|b l (rest & E & N & R)]; simpl.
  - exists []. repeat split; auto.
  - destruct (Byte.eqb b Byte.x00) eqn:Eb.
    + apply Byte.byte_dec_bl in Eb. subst b.
      exists (Byte.x00 :: l). repeat split; simpl; eauto.
    + exists rest. repeat split; auto.
      * simpl. now rewrite <- E.
      * intros [H|H]; [|now apply N].
        subst b. discriminate Eb.
Qed.

(** X9.  The parser is called at most once per message, and what it is
    handed is the content of the buffer up to [len] or up to the first NUL
    byte, whichever comes first: a NUL-free prefix of [data[0 .. len)] that
    is followed, when shorter, by a NUL. *)
Theorem parser_is_handed_the_text_before_the_first_nul
    (bytes : list Byte.byte) (len : Z)
    (st st' : state World) (tr : list event) :
  entry (Some bytes) len st = Done tt st' tr ->
  parsed tr = [] \/
  exists text rest : list Byte.byte,
    parsed tr = [text] /\
    firstn (Z.to_nat len) bytes = (text ++ rest)%list /\
    ~ In Byte.x00 text /\
    (rest = [] \/ exists r, rest = Byte.x00 :: r).
Proof.
  unfold protocol_handle_command_json.
  destruct (len =? 0); [unfold ret; intros H; injection H as <- <-; now left|].
  destruct (negb (malloc_ok ((len + 1) mod 2 ^ 32))).
  { unfold ESP_LOGE. intros H. injection H as <- <-. now left. }
  unfold bind, memcpy, defined, parse.
  destruct ((0 <=? len) && (len <=? Z.of_nat (List.length bytes))); [|discriminate].
  intros H. right.
  destruct (c_string_prefix (firstn (Z.to_nat len) bytes)) as (rest & E & N & R).
  exists (c_string (firstn (Z.to_nat len) bytes ++ [Byte.x00])), rest.
  split; [|now repeat split].
  destruct (cJSON_Parse _) as [root|].
  - destruct (string_value (get root "type")) as [ty|].
    + destruct (router root ty st) as [[] s1 t1|] eqn:Er; [|discriminate].
      injection H as <- <-.
      destruct (router_effect _ _ _ _ _ Er) as (_ & _ & _ & F4).
      simpl. now rewrite F4.
    + unfold ESP_LOGW in H. now injection H as <- <-.
  - unfold ESP_LOGE in H. now injection H as <- <-.
Qed.

(** *** The remaining command kinds *)


(** X11.  [wait], [pause] and [resume] are accepted and do nothing at
    all: no handler is called (not even a bound [wait]), nothing is logged,
    the state is as it was, whatever else the object carries. *)
Theorem wait_pause_resume_do_nothing
    (command : cJSON) (kind : string) (st : state World) :
  get command "kind" = Some (cJSON_String kind) ->
  In kind ["wait"; "pause"; "resume"] ->
  evaluate command st = Done true st [].
Proof.
  intros Hk Hin. unfold handle_single_command_object. rewrite Hk; simpl.
  destruct Hin as [<-|[<-|[<-|[]]]]; reflexivity.
Qed.

(** X12.  [stop] and [clear_queue] call their handler exactly once when
    it is bound, with no argument read from the object, and are accepted
    also when it is not. *)
Theorem stop_and_clear_queue_call_their_handler
    (command : cJSON) (st : state World) :
  (get command "kind" = Some (cJSON_String "stop") ->
     evaluate command st =
       match stop (s_handlers st) with
       | Some f => Done true {| s_handlers := s_handlers st; world := f (world st) |}
                        [Invoked call_stop]
       | None => Done true st []
       end) /\
  (get command "kind" = Some (cJSON_String "clear_queue") ->
     evaluate command st =
       match clear_queue (s_handlers st) with
       | Some f => Done true {| s_handlers := s_handlers st; world := f (world st) |}
                        [Invoked call_clear_queue]
       | None => Done true st []
       end).
Proof.
  split; intros Hk; unfold handle_single_command_object; rewrite Hk; simpl;
    unfold bind, call_if_bound, ret.
  - destruct (stop (s_handlers st)); reflexivity.
  - destruct (clear_queue (s_handlers st)); reflexivity.
Qed.

(** X13.  A command object is evaluated only when its [kind] is a string
    equal, byte for byte, to one of the nine known kinds: any other string
    is rejected with a warning that names it, and an object with no string
    [kind] is rejected for its missing kind; nothing is called. *)
Theorem unknown_kind_is_rejected (command : cJSON) (st : state World) :
  (forall kind : string,
     get command "kind" = Some (cJSON_String kind) ->
     ~ In kind known_kinds ->
     evaluate command st =
       Done false st [Logged ESP_LOG_WARN ("Unknown command kind: " ++ kind)]) /\
  (cJSON_IsString (get command "kind") = false ->
     evaluate command st =
       Done false st [Logged ESP_LOG_WARN "JSON command missing kind"]).
Proof.
  split.
  - intros kind Hk Hin. unfold handle_single_command_object. rewrite Hk; simpl.
    assert (N : forall k, In k known_kinds -> String.eqb kind k = false).
    { intros k Hk'. apply String.eqb_neq. intros ->. now apply Hin. }
    unfold known_kinds in N.
    rewrite !N by (simpl; tauto).
    reflexivity.
  - intros Hk. unfold handle_single_command_object.
    destruct (get command "kind") as [[]|]; simpl in *; try discriminate; reflexivity.
Qed.

(** *** Messages the router drops *)

(** X14.  A message is dropped without a call and without a change of
    state when its type is none of [command], [sequence], [config] (a
    warning names the type), when a [command] message has no [command]
    object, and when a [sequence] message has no [steps] array (a warning
    each); a [config] message without a [drive] object is dropped in
    silence. *)
Theorem router_drops_incomplete_messages (root : cJSON) (st : state World) :
  (forall type_valuestring : string,
     ~ In type_valuestring ["command"; "sequence"; "config"] ->
     router root type_valuestring st =
       Done tt st
         [Logged ESP_LOG_WARN ("Unknown message type: " ++ type_valuestring)]) /\
  (cJSON_IsObject (get root "command") = false ->
     router root "command" st =
       Done tt st [Logged ESP_LOG_WARN "JSON command missing command object"]) /\
  (cJSON_IsArray (get root "steps") = false ->
     router root "sequence" st =
       Done tt st [Logged ESP_LOG_WARN "Sequence missing steps array"]) /\
  (cJSON_IsObject (get root "drive") = false ->
     router root "config" st = Done tt st []).
Proof.
  repeat split.
  - intros ty Hin. unfold handle_command.
    assert (N : forall k, In k ["command"; "sequence"; "config"] ->
                          String.eqb ty k = false).
    { intros k Hk. apply String.eqb_neq. intros ->. now apply Hin. }
    rewrite !N by (simpl; tauto). reflexivity.
  - intros H. unfold handle_command, handle_command_type; simpl.
    destruct (get root "command") as [[]|]; simpl in *; try discriminate; reflexivity.
  - intros H. unfold handle_command, handle_sequence_type; simpl.
    destruct (get root "steps") as [[]|]; simpl in *; try discriminate; reflexivity.
  - intros H. unfold handle_command, handle_config_type; simpl.
    destruct (get root "drive") as [[]|]; simpl in *; try discriminate; reflexivity.
Qed.

(** *** Registering handlers *)

(** X15.  [protocol_set_handlers] replaces the whole table and touches
    nothing else; after [protocol_set_handlers(NULL)] the table is empty,
    so that no message delivered afterwards makes a call or changes the
    world. *)
Theorem set_handlers_null_silences_the_engine
    (data : option (list Byte.byte)) (len : Z)
    (st st' : state World) (tr : list event) :
  bind (protocol_set_handlers None) (fun _ => entry data len) st = Done tt st' tr ->
  calls tr = [] /\ world st' = world st /\ s_handlers st' = no_handlers.
Proof.
  unfold bind, protocol_set_handlers.
  destruct (entry data len _) as [[] s1 t1|] eqn:E; [|discriminate].
  intros H. injection H as <- <-. simpl.
  destruct (entry_unbound data len
              {| s_handlers := no_handlers; world := world st |} s1 t1
              eq_refl E) as [C ->].
  repeat split; auto.
Qed.

(** *** Payloads that fail their guard *)

(** X16.  Each command handler checks the members it needs before it
    converts any number: a [drive] without a string [direction] or a numeric
    [speed], a [turn] without a numeric [radius] or [angle], an [immediate]
    without a numeric [left] or [right] is rejected with the handler's own
    warning, whatever else the object holds; nothing is called. *)
Theorem invalid_payload_is_rejected (command : cJSON) (st : state World) :
  (cJSON_IsString (get command "direction") = false \/
   cJSON_IsNumber (get command "speed") = false ->
     handle_drive_command command st =
       Done false st [Logged ESP_LOG_WARN "Invalid drive command payload"]) /\
  (cJSON_IsNumber (get command "radius") = false \/
   cJSON_IsNumber (get command "angle") = false ->
     handle_turn_command command st =
       Done false st
         [Logged ESP_LOG_WARN "Invalid turn command payload (radius/angle)"]) /\
  (cJSON_IsNumber (get command "left") = false \/
   cJSON_IsNumber (get command "right") = false ->
     handle_immediate_command esp_log_timestamp command st =
       Done false st
         [Logged ESP_LOG_WARN "Invalid immediate command payload (left/right)"]).
Proof.
  repeat split; intros H.
  - unfold handle_drive_command.
    destruct (get command "direction") as [[]|], (get command "speed") as [[]|];
      simpl in *; try reflexivity; destruct H; discriminate.
  - unfold handle_turn_command.
    destruct (get command "radius") as [[]|], (get command "angle") as [[]|];
      simpl in *; try reflexivity; destruct H; discriminate.
  - unfold handle_immediate_command.
    destruct (get command "left") as [[]|], (get command "right") as [[]|];
      simpl in *; try reflexivity; destruct H; discriminate.
Qed.

(** *** Numbers out of range *)

(** X17.  No handler checks the range of a number before it converts it
    to an integer type.  A [drive] command that passes its guard has a
    defined outcome exactly when [speed] fits [int32_t] and [duration] and
    [distance], where numeric, fit [uint32_t]; an [led_hsv] command exactly
    when [h] fits [uint16_t] and [s] and [v], where numeric, fit [uint8_t].
    Outside these ranges (a negative duration, a hue of 70000) the C
    conversion has no defined result. *)
Theorem conversions_are_not_range_checked (command : cJSON) (st : state World) :
  (forall (direction : string) (speed : float),
     get command "direction" = Some (cJSON_String direction) ->
     get command "speed" = Some (cJSON_Number speed) ->
     handle_drive_command command st = Undefined <->
     to_int32 speed = None \/
     field_or to_uint32 (get command "duration") 0 = None \/
     field_or to_uint32 (get command "distance") 0 = None) /\
  (forall h : float,
     get command "h" = Some (cJSON_Number h) ->
     handle_led_hsv_command command st = Undefined <->
     to_uint16 h = None \/
     field_or to_uint8 (get command "s") 255 = None \/
     field_or to_uint8 (get command "v") 32 = None).
Proof.
  split.
  - intros direction speed Hd Hs. unfold handle_drive_command.
    rewrite Hd, Hs; simpl. unfold bind, defined.
    destruct (to_int32 speed) as [s|]; [|split; auto].
    rewrite number_or_field_or.
    destruct (field_or to_uint32 (get command "duration") 0) as [du|];
      [|split; auto].
    rewrite number_or_field_or.
    destruct (field_or to_uint32 (get command "distance") 0) as [di|];
      [|split; auto].
    unfold call_if_bound, ret.
    destruct (option_map _ (drive (s_handlers st)));
      (split; [discriminate | intros [H|[H|H]]; discriminate H]).
  - intros h Hh. unfold handle_led_hsv_command.
    rewrite Hh; simpl. unfold bind, defined.
    destruct (to_uint16 h) as [hue|]; [|split; auto].
    rewrite number_or_field_or.
    destruct (field_or to_uint8 (get command "s") 255) as [sat|]; [|split; auto].
    rewrite number_or_field_or.
    destruct (field_or to_uint8 (get command "v") 32) as [val|]; [|split; auto].
    unfold call_if_bound, ret.
    destruct (option_map _ (set_led_hsv (s_handlers st)));
      (split; [discriminate | intros [H|[H|H]]; discriminate H]).
Qed.

(** *** The entry point, step by step *)

(** X18.  When the copy of the message cannot be allocated the entry
    point logs an error and returns: nothing is read from [data] (so the
    length may even reach past it), nothing is parsed, nothing is called. *)
Theorem allocation_failure_drops_the_message
    (bytes : list Byte.byte) (len : Z) (st : state World) :
  len <> 0 ->
  malloc_ok ((len + 1) mod 2 ^ 32) = false ->
  entry (Some bytes) len st =
    Done tt st [Logged ESP_LOG_ERROR "Failed to allocate buffer for JSON parse"].
Proof.
  intros Hlen Hm. unfold protocol_handle_command_json.
  apply Z.eqb_neq in Hlen. now rewrite Hlen, Hm.
Qed.

(** X19.  A message that parses is routed on the string value of its
    [type] member and on nothing else: the run is the parse followed by the
    router, and a root whose [type] is absent or not a string is dropped
    with a warning after the parse. *)
Theorem entry_routes_on_type
    (bytes : list Byte.byte) (len : Z) (root : cJSON) (st : state World) :
  0 < len <= Z.of_nat (List.length bytes) ->
  malloc_ok ((len + 1) mod 2 ^ 32) = true ->
  let text := c_string (firstn (Z.to_nat len) bytes ++ [Byte.x00]) in
  cJSON_Parse text = Some root ->
  (forall type_valuestring : string,
     get root "type" = Some (cJSON_String type_valuestring) ->
     entry (Some bytes) len st =
       match router root type_valuestring st with
       | Done _ st' tr => Done tt st' (Parsed text :: tr)
       | Undefined => Undefined
       end) /\
  (cJSON_IsString (get root "type") = false ->
     entry (Some bytes) len st =
       Done tt st [Parsed text; Logged ESP_LOG_WARN "JSON command missing type"]).
Proof.
  intros Hlen Hm text Hp.
  assert (E0 : (len =? 0) = false) by (apply Z.eqb_neq; lia).
  assert (E1 : ((0 <=? len) && (len <=? Z.of_nat (List.length bytes))) = true).
  { apply andb_true_iff; split; apply Z.leb_le; lia. }
  unfold protocol_handle_command_json.
  rewrite E0, Hm; simpl.
  unfold bind, memcpy, defined, parse. rewrite E1. fold text. rewrite Hp.
  split.
  - intros ty Ht. rewrite Ht; simpl.
    now destruct (router root ty st) as [[] s1 t1|].
  - intros Ht.
    destruct (get root "type") as [[]|]; simpl in *; try discriminate; reflexivity.
Qed.

End Effects_of_a_run.

(* ================================================================== *)
(** ** Properties of the MQTT receive path *)

Section Receive_path.

Context {World : Type}.
Variable malloc_ok : Z -> bool.

Local Abbreviation handle_data := (Mqtt.mqtt_handle_data malloc_ok).
Local Abbreviation deliver := (Mqtt.data_events malloc_ok).

Lemma size_t_small (i : Z) : 0 <= i < 2 ^ 32 -> Mqtt.size_t i = i.
Proof. intros H. unfold Mqtt.size_t. now apply Z.mod_small. Qed.

Lemma forwarded_app (t1 t2 : list Mqtt.rx_event) :
  Mqtt.forwarded (t1 ++ t2) = (Mqtt.forwarded t1 ++ Mqtt.forwarded t2)%list.
Proof.
  induction t1 as [|e t1 IH]; simpl; [reflexivity|].
  destruct e; simpl; now rewrite IH.
Qed.

Lemma rx_free_consistent (st : Mqtt.client World) :
  Mqtt.rx_consistent (Mqtt.rx_free st).
Proof. unfold Mqtt.rx_consistent; simpl. split; reflexivity. Qed.

Lemma start_of_payload_step (e : Mqtt.esp_mqtt_event_t)
    (st st1 : Mqtt.client World) tr1 returned :
  Mqtt.rx_consistent st ->
  0 < Mqtt.total_data_len e < 2 ^ 31 ->
  Mqtt.start_of_payload malloc_ok e st = (st1, tr1, returned) ->
  Mqtt.rx_consistent st1 /\ Mqtt.forwarded tr1 = [] /\
  Mqtt.s_handlers st1 = Mqtt.s_handlers st /\ Mqtt.world st1 = Mqtt.world st.
Proof.
  intros C Ht. unfold Mqtt.start_of_payload.
  rewrite (size_t_small (Mqtt.total_data_len e)) by lia.
  destruct (Mqtt.current_data_offset e =? 0).
  - set (st0 := if negb (Mqtt.s_rx_expected_len st =? 0)
                   || is_bound (Mqtt.s_rx_buffer st)
                then Mqtt.rx_free st else st).
    assert (C0 : Mqtt.rx_consistent st0 /\
                 Mqtt.s_handlers st0 = Mqtt.s_handlers st /\
                 Mqtt.world st0 = Mqtt.world st).
    { unfold st0.
      destruct (negb (Mqtt.s_rx_expected_len st =? 0) || is_bound (Mqtt.s_rx_buffer st));
        repeat split; auto using rx_free_consistent. }
    destruct C0 as (C0 & H0 & W0).
    destruct ((Mqtt.total_data_len e =? 0) || (Mqtt.kMaxJsonLen <? Mqtt.total_data_len e))
      eqn:Ebig.
    { intros H. injection H as <- <- <-. repeat split; auto. }
    destruct (negb (malloc_ok (Mqtt.total_data_len e))).
    { intros H. injection H as <- <- <-. repeat split; auto. }
    intros H. injection H as <- <- <-.
    apply orb_false_iff in Ebig. destruct Ebig as [_ Ebig].
    apply Z.ltb_ge in Ebig.
    repeat split; auto; unfold Mqtt.rx_consistent; simpl; lia.
  - intros H. injection H as <- <- <-. repeat split; auto.
Qed.

(** One data event: the statics stay consistent, the handler table is the
    same, and whatever is handed over is well formed. *)
Lemma handle_data_step (e : Mqtt.esp_mqtt_event_t)
    (st st' : Mqtt.client World) (tr : list Mqtt.rx_event) :
  Mqtt.rx_consistent st ->
  Mqtt.int_fields e ->
  handle_data e st = Mqtt.Returned st' tr ->
  Mqtt.rx_consistent st' /\
  Forall Mqtt.well_formed_delivery (Mqtt.forwarded tr) /\
  Mqtt.s_handlers st' = Mqtt.s_handlers st.
Proof.
  intros C (Id & It & Io). unfold Mqtt.is_int in *.
  unfold Mqtt.mqtt_handle_data.
  destruct (Mqtt.on_command_json (Mqtt.s_handlers st)) as [handler|];
    [|intros H; injection H as <- <-; repeat split; auto].
  destruct ((Mqtt.total_data_len e <=? 0) || (Mqtt.data_len e <=? 0)) eqn:Epos;
    [intros H; injection H as <- <-; repeat split; auto|].
  apply orb_false_iff in Epos. destruct Epos as [Et Ed].
  apply Z.leb_gt in Et. apply Z.leb_gt in Ed.
  destruct (Mqtt.start_of_payload malloc_ok e st) as [[st1 tr1] returned] eqn:Es.
  destruct (start_of_payload_step e st st1 tr1 returned C ltac:(lia) Es)
    as (C1 & F1 & H1 & W1).
  destruct returned;
    [intros H; injection H as <- <-; rewrite F1; repeat split; auto|].
  unfold Mqtt.rx_consistent in C1.
  destruct (Mqtt.s_rx_buffer st1) as [written|] eqn:Eb;
    [|intros H; injection H as <- <-; rewrite F1; repeat split; auto;
      unfold Mqtt.rx_consistent; now rewrite Eb].
  destruct C1 as (Clen & Cexp).
  assert (Hlen : 0 <= Mqtt.s_rx_buffer_len st1) by lia.
  destruct (Mqtt.s_rx_expected_len st1 =? 0);
    [intros H; injection H as <- <-; rewrite F1; repeat split; auto;
     unfold Mqtt.rx_consistent; rewrite Eb; lia|].
  destruct (negb (Mqtt.size_t (Mqtt.current_data_offset e) =? Mqtt.s_rx_buffer_len st1)).
  { intros H. injection H as <- <-. rewrite forwarded_app, F1. simpl.
    repeat split; auto using rx_free_consistent. }
  rewrite (size_t_small (Mqtt.data_len e)) by lia.
  unfold Mqtt.kMaxJsonLen in *.
  rewrite (size_t_small (Mqtt.s_rx_buffer_len st1 + Mqtt.data_len e)) by lia.
  destruct (Mqtt.s_rx_expected_len st1 <? Mqtt.s_rx_buffer_len st1 + Mqtt.data_len e)
    eqn:Eover.
  { intros H. injection H as <- <-. rewrite forwarded_app, F1. simpl.
    repeat split; auto using rx_free_consistent. }
  apply Z.ltb_ge in Eover.
  destruct (negb (Mqtt.data_len e <=? Z.of_nat (List.length (Mqtt.data e)))) eqn:Emem;
    [discriminate|].
  apply negb_false_iff, Z.leb_le in Emem.
  assert (Hw : Z.of_nat (List.length
                 (written ++ firstn (Z.to_nat (Mqtt.data_len e)) (Mqtt.data e)))
               = Mqtt.s_rx_buffer_len st1 + Mqtt.data_len e).
  { rewrite length_app, length_firstn. lia. }
  destruct (Mqtt.s_rx_buffer_len st1 + Mqtt.data_len e =? Mqtt.s_rx_expected_len st1)
    eqn:Efull.
  - apply Z.eqb_eq in Efull.
    intros H. injection H as <- <-. rewrite forwarded_app, F1. simpl.
    repeat split; auto using rx_free_consistent.
    constructor; [|constructor].
    unfold Mqtt.well_formed_delivery, Mqtt.kMaxJsonLen; simpl. lia.
  - apply Z.eqb_neq in Efull.
    intros H. injection H as <- <-. rewrite F1.
    repeat split; auto;
      unfold Mqtt.rx_consistent, Mqtt.kMaxJsonLen; simpl; lia.
Qed.

Lemma deliver_steps (events : list Mqtt.esp_mqtt_event_t)
    (st st' : Mqtt.client World) (tr : list Mqtt.rx_event) :
  Mqtt.rx_consistent st ->
  Forall Mqtt.int_fields events ->
  deliver events st = Mqtt.Returned st' tr ->
  Mqtt.rx_consistent st' /\
  Forall Mqtt.well_formed_delivery (Mqtt.forwarded tr) /\
  Mqtt.s_handlers st' = Mqtt.s_handlers st.
Proof.
  revert st st' tr. induction events as [|e events IH]; intros st st' tr C I; simpl.
  - intros H. injection H as <- <-. repeat split; simpl; auto.
  - inversion I as [|? ? Ie Irest]; subst.
    destruct (handle_data e st) as [s1 t1|] eqn:E1; [|discriminate].
    destruct (deliver events s1) as [s2 t2|] eqn:E2; [|discriminate].
    intros H. injection H as <- <-.
    destruct (handle_data_step e st s1 t1 C Ie E1) as (C1 & F1 & H1).
    destruct (IH s1 s2 t2 C1 Irest E2) as (C2 & F2 & H2).
    repeat split; auto; [|congruence].
    rewrite forwarded_app. apply Forall_app. now split.
Qed.

(** X20.  Between data events the statics of the receive path stay
    consistent: either there is no buffer and both lengths are zero, or the
    buffer holds exactly [s_rx_buffer_len] bytes, fewer than the expected
    length, which is at most 8192.  So the copy into the buffer never
    writes past the block that was allocated for the payload. *)
Theorem receive_path_keeps_statics_consistent
    (events : list Mqtt.esp_mqtt_event_t)
    (st st' : Mqtt.client World) (tr : list Mqtt.rx_event) :
  Mqtt.rx_consistent st ->
  Forall Mqtt.int_fields events ->
  deliver events st = Mqtt.Returned st' tr ->
  Mqtt.rx_consistent st'.
Proof. intros C I H. now destruct (deliver_steps _ _ _ _ C I H). Qed.

(** X21.  Whatever the order, sizes and offsets of the data events, every
    buffer the receive path hands to [on_command_json] comes with its own
    length, which is positive and at most 8192: the handler is never given
    a length that reaches past the buffer. *)
Theorem every_delivery_carries_its_own_length
    (events : list Mqtt.esp_mqtt_event_t)
    (st st' : Mqtt.client World) (tr : list Mqtt.rx_event) :
  Mqtt.rx_consistent st ->
  Forall Mqtt.int_fields events ->
  deliver events st = Mqtt.Returned st' tr ->
  Forall Mqtt.well_formed_delivery (Mqtt.forwarded tr).
Proof. intros C I H. now destruct (deliver_steps _ _ _ _ C I H) as (_ & F & _). Qed.

(** *** Payloads in fragments *)

Local Abbreviation pending := Mqtt.pending.
Local Abbreviation idle := Mqtt.idle.
Local Abbreviation size := Mqtt.size.

Lemma firstn_all_Z (l : list Byte.byte) :
  firstn (Z.to_nat (Z.of_nat (List.length l))) l = l.
Proof. rewrite Nat2Z.id. apply firstn_all. Qed.

(** The first fragment of a payload, from any state of the statics. *)
Lemma first_fragment (total : Z) (c : list Byte.byte)
    (st : Mqtt.client World) handler :
  Mqtt.on_command_json (Mqtt.s_handlers st) = Some handler ->
  0 < Mqtt.size c <= total -> total <= Mqtt.kMaxJsonLen ->
  malloc_ok total = true ->
  handle_data {| Mqtt.data := c; Mqtt.data_len := Mqtt.size c;
                 Mqtt.total_data_len := total; Mqtt.current_data_offset := 0 |} st
  = if Mqtt.size c =? total
    then Mqtt.Returned
           (idle (Mqtt.s_handlers st) (handler c total (Mqtt.world st)))
           [Mqtt.Forwarded c total]
    else Mqtt.Returned (pending (Mqtt.s_handlers st) (Mqtt.world st) total c) [].
Proof.
  intros Hh Hc Ht Hm. unfold Mqtt.kMaxJsonLen in Ht.
  unfold Mqtt.size, Mqtt.pending, Mqtt.idle in *.
  unfold Mqtt.mqtt_handle_data, Mqtt.start_of_payload; simpl. rewrite Hh.
  replace ((total <=? 0) || (Z.of_nat (List.length c) <=? 0)) with false
    by (symmetry; apply orb_false_iff; split; apply Z.leb_gt; lia).
  rewrite (size_t_small total) by lia.
  replace ((total =? 0) || (Mqtt.kMaxJsonLen <? total)) with false
    by (symmetry; apply orb_false_iff; split;
        [apply Z.eqb_neq | apply Z.ltb_ge]; unfold Mqtt.kMaxJsonLen; lia).
  rewrite Hm; simpl.
  assert (S0 : forall s : Mqtt.client World,
            Mqtt.s_handlers
              (if negb (Mqtt.s_rx_expected_len st =? 0) || is_bound (Mqtt.s_rx_buffer st)
               then Mqtt.rx_free st else st) = Mqtt.s_handlers st /\
            Mqtt.world
              (if negb (Mqtt.s_rx_expected_len st =? 0) || is_bound (Mqtt.s_rx_buffer st)
               then Mqtt.rx_free st else st) = Mqtt.world st).
  { intros _.
    destruct (negb (Mqtt.s_rx_expected_len st =? 0) || is_bound (Mqtt.s_rx_buffer st));
      split; reflexivity. }
  destruct (S0 st) as [-> ->].
  replace (total =? 0) with false by (symmetry; apply Z.eqb_neq; lia).
  rewrite (size_t_small (Z.of_nat (List.length c))) by lia.
  rewrite (size_t_small (Z.of_nat (List.length c))) by lia.
  replace (total <? Z.of_nat (List.length c)) with false by (symmetry; apply Z.ltb_ge; lia).
  replace (Z.of_nat (List.length c) <=? Z.of_nat (List.length c)) with true by (symmetry; apply Z.leb_le; lia).
  simpl. rewrite firstn_all_Z.
  destruct (Z.of_nat (List.length c) =? total) eqn:E; [|reflexivity].
  apply Z.eqb_eq in E. now rewrite E.
Qed.

(** A later fragment, at the offset the statics expect. *)
Lemma next_fragment (total : Z) (written c : list Byte.byte)
    (hs : Mqtt.mqtt_handlers_t World) (w : World) handler :
  Mqtt.on_command_json hs = Some handler ->
  0 < Mqtt.size written -> 0 < Mqtt.size c ->
  Mqtt.size written + Mqtt.size c <= total -> total <= Mqtt.kMaxJsonLen ->
  handle_data {| Mqtt.data := c; Mqtt.data_len := Mqtt.size c;
                 Mqtt.total_data_len := total;
                 Mqtt.current_data_offset := Mqtt.size written |}
              (pending hs w total written)
  = if Mqtt.size (written ++ c)%list =? total
    then Mqtt.Returned (idle hs (handler (written ++ c)%list total w))
           [Mqtt.Forwarded (written ++ c)%list total]
    else Mqtt.Returned (pending hs w total (written ++ c)%list) [].
Proof.
  intros Hh Hw Hc Hsum Ht. unfold Mqtt.kMaxJsonLen in Ht.
  unfold Mqtt.size, Mqtt.pending, Mqtt.idle in *.
  unfold Mqtt.mqtt_handle_data, Mqtt.start_of_payload; simpl. rewrite Hh.
  replace ((total <=? 0) || (Z.of_nat (List.length c) <=? 0)) with false
    by (symmetry; apply orb_false_iff; split; apply Z.leb_gt; lia).
  replace (Z.of_nat (List.length written) =? 0) with false by (symmetry; apply Z.eqb_neq; lia).
  simpl.
  replace (total =? 0) with false by (symmetry; apply Z.eqb_neq; lia).
  rewrite (size_t_small (Z.of_nat (List.length written))) by lia.
  rewrite Z.eqb_refl; simpl.
  rewrite (size_t_small (Z.of_nat (List.length c))) by lia.
  rewrite (size_t_small (Z.of_nat (List.length written) + Z.of_nat (List.length c))) by lia.
  replace (total <? Z.of_nat (List.length written) + Z.of_nat (List.length c)) with false
    by (symmetry; apply Z.ltb_ge; lia).
  replace (Z.of_nat (List.length c) <=? Z.of_nat (List.length c)) with true by (symmetry; apply Z.leb_le; lia).
  simpl. rewrite firstn_all_Z.
  assert (L : Z.of_nat (List.length (written ++ c)) = Z.of_nat (List.length written) + Z.of_nat (List.length c)).
  { rewrite length_app. lia. }
  rewrite L.
  destruct (Z.of_nat (List.length written) + Z.of_nat (List.length c) =? total) eqn:E.
  - apply Z.eqb_eq in E. now rewrite E.
  - now rewrite <- L.
Qed.


Lemma size_app (a b : list Byte.byte) :
  Mqtt.size (a ++ b) = Mqtt.size a + Mqtt.size b.
Proof. unfold Mqtt.size. rewrite length_app. lia. Qed.

Lemma size_nonneg (a : list Byte.byte) : 0 <= Mqtt.size a.
Proof. unfold Mqtt.size. lia. Qed.

Lemma size_positive (a : list Byte.byte) : a <> [] -> 0 < Mqtt.size a.
Proof. unfold Mqtt.size. destruct a; [congruence | simpl; lia]. Qed.

Lemma size_concat_zero (chunks : list (list Byte.byte)) :
  Forall (fun c => c <> []) chunks ->
  Mqtt.size (List.concat chunks) <= 0 -> chunks = [].
Proof.
  intros F H. destruct chunks as [|c rest]; [reflexivity|].
  inversion F as [|? ? Hc _]; subst. simpl in H. rewrite size_app in H.
  pose proof (size_positive c Hc). pose proof (size_nonneg (List.concat rest)). lia.
Qed.

(** The fragments after the first, while they arrive in order. *)
Lemma later_fragments (total : Z) (chunks : list (list Byte.byte))
    (hs : Mqtt.mqtt_handlers_t World) (w : World) handler :
  Mqtt.on_command_json hs = Some handler ->
  total <= Mqtt.kMaxJsonLen ->
  Forall (fun c => c <> []) chunks ->
  forall written : list Byte.byte,
    0 < Mqtt.size written < total ->
    Mqtt.size written + Mqtt.size (List.concat chunks) <= total ->
    deliver (Mqtt.fragments total (Mqtt.size written) chunks)
            (pending hs w total written)
    = if Mqtt.size written + Mqtt.size (List.concat chunks) =? total
      then Mqtt.Returned
             (idle hs (handler (written ++ List.concat chunks)%list total w))
             [Mqtt.Forwarded (written ++ List.concat chunks)%list total]
      else Mqtt.Returned (pending hs w total (written ++ List.concat chunks)%list) [].
Proof.
  intros Hh Ht F. induction F as [|c rest Hc Hrest IH]; intros written Hw Hsum.
  - simpl. replace (Mqtt.size written + Mqtt.size [] =? total) with false
      by (symmetry; apply Z.eqb_neq; unfold Mqtt.size at 2; simpl; lia).
    now rewrite app_nil_r.
  - simpl in *. rewrite size_app in Hsum.
    pose proof (size_positive c Hc) as Pc.
    pose proof (size_nonneg (List.concat rest)) as Pr.
    change (Z.of_nat (List.length c)) with (Mqtt.size c).
    rewrite (next_fragment total written c hs w handler Hh) by lia.
    rewrite <- size_app.
    destruct (Mqtt.size (written ++ c) =? total) eqn:E.
    + apply Z.eqb_eq in E. rewrite size_app in E.
      assert (R : rest = []) by (apply size_concat_zero; [exact Hrest | lia]).
      subst rest. simpl. rewrite !app_nil_r.
      replace (Mqtt.size written + Mqtt.size c =? total) with true
        by (symmetry; apply Z.eqb_eq; lia).
      reflexivity.
    + apply Z.eqb_neq in E. rewrite size_app in E.
      rewrite IH by (rewrite ?size_app; lia).
      rewrite !size_app, <- !app_assoc, Z.add_assoc.
      now destruct (Mqtt.size written + Mqtt.size c + Mqtt.size (List.concat rest) =? total).
Qed.

(** X22.  A payload of at most 8192 bytes that arrives in any number of
    non-empty fragments, in order, is handed to [on_command_json] exactly
    once, whole, with its length, right after its last fragment; nothing is
    handed over before, and the statics are back to idle.  This holds
    from any state of the statics: a payload that starts at offset 0
    replaces whatever was under way. *)
Theorem fragments_are_reassembled
    (chunks : list (list Byte.byte)) (st : Mqtt.client World) handler :
  Mqtt.on_command_json (Mqtt.s_handlers st) = Some handler ->
  Forall (fun c => c <> []) chunks ->
  0 < Mqtt.size (List.concat chunks) <= Mqtt.kMaxJsonLen ->
  malloc_ok (Mqtt.size (List.concat chunks)) = true ->
  deliver (Mqtt.fragments (Mqtt.size (List.concat chunks)) 0 chunks) st
  = Mqtt.Returned
      (idle (Mqtt.s_handlers st)
         (handler (List.concat chunks) (Mqtt.size (List.concat chunks)) (Mqtt.world st)))
      [Mqtt.Forwarded (List.concat chunks) (Mqtt.size (List.concat chunks))].
Proof.
  intros Hh F Ht Hm.
  destruct chunks as [|c rest]; [unfold Mqtt.size in Ht; simpl in Ht; lia|].
  inversion F as [|? ? Hc Hrest]; subst.
  set (total := Mqtt.size (List.concat (c :: rest))) in *.
  assert (T : total = Mqtt.size c + Mqtt.size (List.concat rest)).
  { unfold total. simpl. apply size_app. }
  pose proof (size_positive c Hc) as Pc.
  pose proof (size_nonneg (List.concat rest)) as Pr.
  simpl Mqtt.fragments. simpl deliver.
  change (Z.of_nat (List.length c)) with (Mqtt.size c).
  rewrite (first_fragment total c st handler Hh ltac:(lia) ltac:(lia) Hm).
  destruct (Mqtt.size c =? total) eqn:E.
  - apply Z.eqb_eq in E.
    assert (R : rest = []) by (apply size_concat_zero; [exact Hrest | lia]).
    subst rest. simpl. now rewrite app_nil_r.
  - apply Z.eqb_neq in E.
    rewrite (later_fragments total rest (Mqtt.s_handlers st) (Mqtt.world st)
               handler Hh ltac:(lia) Hrest c) by lia.
    replace (Mqtt.size c + Mqtt.size (List.concat rest) =? total) with true
      by (symmetry; apply Z.eqb_eq; lia).
    reflexivity.
Qed.

(** With no buffer, a fragment that does not start a payload is ignored. *)
Lemma stray_fragments_are_ignored (total : Z) (chunks : list (list Byte.byte))
    (st : Mqtt.client World) :
  Mqtt.s_rx_buffer st = None ->
  forall offset : Z, 0 < offset ->
    deliver (Mqtt.fragments total offset chunks) st = Mqtt.Returned st [].
Proof.
  intros Hb. induction chunks as [|c rest IH]; intros offset Ho; simpl; [reflexivity|].
  assert (E : handle_data
                {| Mqtt.data := c; Mqtt.data_len := Z.of_nat (List.length c);
                   Mqtt.total_data_len := total; Mqtt.current_data_offset := offset |}
                st = Mqtt.Returned st []).
  { unfold Mqtt.mqtt_handle_data, Mqtt.start_of_payload; simpl.
    destruct (Mqtt.on_command_json (Mqtt.s_handlers st)); [|reflexivity].
    destruct ((total <=? 0) || (Z.of_nat (List.length c) <=? 0)); [reflexivity|].
    replace (offset =? 0) with false by (symmetry; apply Z.eqb_neq; lia).
    now rewrite Hb. }
  rewrite E, IH by lia. reflexivity.
Qed.

(** X23.  A payload announced as longer than 8192 bytes is dropped as a
    whole: its first fragment is answered with one warning and frees
    whatever was under way, every later fragment is ignored, and nothing
    is handed to [on_command_json]. *)
Theorem oversize_payload_is_dropped
    (total : Z) (c : list Byte.byte) (rest : list (list Byte.byte))
    (st : Mqtt.client World) handler :
  Mqtt.on_command_json (Mqtt.s_handlers st) = Some handler ->
  Mqtt.kMaxJsonLen < total < 2 ^ 31 ->
  Forall (fun c => c <> []) (c :: rest) ->
  exists st' : Mqtt.client World,
    deliver (Mqtt.fragments total 0 (c :: rest)) st
    = Mqtt.Returned st'
        [Mqtt.Reported ESP_LOG_WARN "MQTT payload too large or zero (len=%u)" [total]] /\
    Mqtt.s_rx_buffer st' = None /\
    Mqtt.world st' = Mqtt.world st /\
    Mqtt.s_handlers st' = Mqtt.s_handlers st.
Proof.
  intros Hh Ht F. inversion F as [|? ? Hc Hrest]; subst.
  pose proof (size_positive c Hc) as Pc. unfold Mqtt.size in Pc.
  unfold Mqtt.kMaxJsonLen in Ht.
  set (st0 := if negb (Mqtt.s_rx_expected_len st =? 0) || is_bound (Mqtt.s_rx_buffer st)
              then Mqtt.rx_free st else st).
  assert (S0 : Mqtt.s_rx_buffer st0 = None /\ Mqtt.world st0 = Mqtt.world st /\
               Mqtt.s_handlers st0 = Mqtt.s_handlers st).
  { unfold st0. destruct (Mqtt.s_rx_buffer st) eqn:Eb; simpl.
    - rewrite orb_true_r. repeat split.
    - rewrite orb_false_r.
      destruct (negb (Mqtt.s_rx_expected_len st =? 0)); repeat split; auto. }
  exists st0. split; [|exact S0].
  simpl Mqtt.fragments. simpl deliver.
  assert (E : handle_data
                {| Mqtt.data := c; Mqtt.data_len := Z.of_nat (List.length c);
                   Mqtt.total_data_len := total; Mqtt.current_data_offset := 0 |} st
              = Mqtt.Returned st0
                  [Mqtt.Reported ESP_LOG_WARN
                     "MQTT payload too large or zero (len=%u)" [total]]).
  { unfold Mqtt.mqtt_handle_data, Mqtt.start_of_payload; simpl. rewrite Hh.
    replace ((total <=? 0) || (Z.of_nat (List.length c) <=? 0)) with false
      by (symmetry; apply orb_false_iff; split; apply Z.leb_gt; lia).
    rewrite (size_t_small total) by lia.
    replace ((total =? 0) || (Mqtt.kMaxJsonLen <? total)) with true
      by (symmetry; apply orb_true_iff; right; apply Z.ltb_lt;
          unfold Mqtt.kMaxJsonLen; lia).
    reflexivity. }
  rewrite E.
  rewrite (stray_fragments_are_ignored total rest st0 (proj1 S0)) by lia.
  reflexivity.
Qed.



(** A fragment at the offset the statics expect, whatever total it
    announces. *)
Lemma appended_fragment (total announced : Z) (written c : list Byte.byte)
    (hs : Mqtt.mqtt_handlers_t World) (w : World) handler :
  Mqtt.on_command_json hs = Some handler ->
  0 < announced ->
  0 < Mqtt.size written -> 0 < Mqtt.size c ->
  Mqtt.size written + Mqtt.size c <= total -> total <= Mqtt.kMaxJsonLen ->
  handle_data {| Mqtt.data := c; Mqtt.data_len := Mqtt.size c;
                 Mqtt.total_data_len := announced;
                 Mqtt.current_data_offset := Mqtt.size written |}
              (pending hs w total written)
  = if Mqtt.size (written ++ c)%list =? total
    then Mqtt.Returned (idle hs (handler (written ++ c)%list total w))
           [Mqtt.Forwarded (written ++ c)%list total]
    else Mqtt.Returned (pending hs w total (written ++ c)%list) [].
Proof.
  intros Hh Ha Hw Hc Hsum Ht. unfold Mqtt.kMaxJsonLen in Ht.
  unfold Mqtt.size, Mqtt.pending, Mqtt.idle in *.
  unfold Mqtt.mqtt_handle_data, Mqtt.start_of_payload; simpl. rewrite Hh.
  replace ((announced <=? 0) || (Z.of_nat (List.length c) <=? 0)) with false
    by (symmetry; apply orb_false_iff; split; apply Z.leb_gt; lia).
  replace (Z.of_nat (List.length written) =? 0) with false by (symmetry; apply Z.eqb_neq; lia).
  simpl.
  replace (total =? 0) with false by (symmetry; apply Z.eqb_neq; lia).
  rewrite (size_t_small (Z.of_nat (List.length written))) by lia.
  rewrite Z.eqb_refl; simpl.
  rewrite (size_t_small (Z.of_nat (List.length c))) by lia.
  rewrite (size_t_small (Z.of_nat (List.length written) + Z.of_nat (List.length c))) by lia.
  replace (total <? Z.of_nat (List.length written) + Z.of_nat (List.length c)) with false
    by (symmetry; apply Z.ltb_ge; lia).
  replace (Z.of_nat (List.length c) <=? Z.of_nat (List.length c)) with true by (symmetry; apply Z.leb_le; lia).
  simpl. rewrite firstn_all_Z.
  assert (L : Z.of_nat (List.length (written ++ c)) = Z.of_nat (List.length written) + Z.of_nat (List.length c)).
  { rewrite length_app. lia. }
  rewrite L.
  destruct (Z.of_nat (List.length written) + Z.of_nat (List.length c) =? total) eqn:E.
  - apply Z.eqb_eq in E. now rewrite E.
  - now rewrite <- L.
Qed.

(** X27.  The receive path knows a fragment by its offset alone: a
    fragment at the offset the statics expect is appended to the payload
    under way, whichever payload it comes from and whatever
    [total_data_len] it announces.  So when the first fragment of a payload
    is lost while another payload is under way at exactly that offset, the
    fragments that remain complete the other payload, and the buffer spliced
    from the two is handed to [on_command_json] with the length of the
    first. *)
Theorem fragment_is_known_by_its_offset_alone
    (total announced : Z) (chunks : list (list Byte.byte))
    (hs : Mqtt.mqtt_handlers_t World) (w : World) handler :
  Mqtt.on_command_json hs = Some handler ->
  0 < announced ->
  total <= Mqtt.kMaxJsonLen ->
  Forall (fun c => c <> []) chunks ->
  forall written : list Byte.byte,
    0 < Mqtt.size written < total ->
    Mqtt.size written + Mqtt.size (List.concat chunks) <= total ->
    deliver (Mqtt.fragments announced (Mqtt.size written) chunks)
            (pending hs w total written)
    = if Mqtt.size written + Mqtt.size (List.concat chunks) =? total
      then Mqtt.Returned
             (idle hs (handler (written ++ List.concat chunks)%list total w))
             [Mqtt.Forwarded (written ++ List.concat chunks)%list total]
      else Mqtt.Returned (pending hs w total (written ++ List.concat chunks)%list) [].
Proof.
  intros Hh Ha Ht F. induction F as [|c rest Hc Hrest IH]; intros written Hw Hsum.
  - simpl. replace (Mqtt.size written + Mqtt.size [] =? total) with false
      by (symmetry; apply Z.eqb_neq; unfold Mqtt.size at 2; simpl; lia).
    now rewrite app_nil_r.
  - simpl in *. rewrite size_app in Hsum.
    pose proof (size_positive c Hc) as Pc.
    pose proof (size_nonneg (List.concat rest)) as Pr.
    change (Z.of_nat (List.length c)) with (Mqtt.size c).
    rewrite (appended_fragment total announced written c hs w handler Hh Ha) by lia.
    rewrite <- size_app.
    destruct (Mqtt.size (written ++ c) =? total) eqn:E.
    + apply Z.eqb_eq in E. rewrite size_app in E.
      assert (R : rest = []) by (apply size_concat_zero; [exact Hrest | lia]).
      subst rest. simpl. rewrite !app_nil_r.
      replace (Mqtt.size written + Mqtt.size c =? total) with true
        by (symmetry; apply Z.eqb_eq; lia).
      reflexivity.
    + apply Z.eqb_neq in E. rewrite size_app in E.
      rewrite IH by (rewrite ?size_app; lia).
      rewrite !size_app, <- !app_assoc, Z.add_assoc.
      now destruct (Mqtt.size written + Mqtt.size c + Mqtt.size (List.concat rest) =? total).
Qed.

(** *** Data that is not taken *)

(** X25.  While no [on_command_json] handler is bound, and for events
    whose [total_data_len] or [data_len] is not positive, the receive path
    does nothing at all: nothing is buffered, freed, logged or handed over.
    So after [mqtt_set_handlers(NULL)] the statics stay as they were, a
    payload under way included, whatever arrives. *)
Theorem data_without_handler_or_length_is_ignored
    (events : list Mqtt.esp_mqtt_event_t) (st : Mqtt.client World) :
  (Forall (fun e => Mqtt.total_data_len e <= 0 \/ Mqtt.data_len e <= 0) events ->
     deliver events st = Mqtt.Returned st []) /\
  (Mqtt.on_command_json (Mqtt.s_handlers st) = None ->
     deliver events st = Mqtt.Returned st []) /\
  deliver events (Mqtt.mqtt_set_handlers None st)
    = Mqtt.Returned (Mqtt.mqtt_set_handlers None st) [].
Proof.
  assert (N : forall s : Mqtt.client World,
            Mqtt.on_command_json (Mqtt.s_handlers s) = None ->
            deliver events s = Mqtt.Returned s []).
  { intros s Hs. induction events as [|e rest IH]; simpl; [reflexivity|].
    unfold Mqtt.mqtt_handle_data. rewrite Hs. now rewrite IH. }
  split; [|split].
  - clear N. intros F. induction F as [|e rest He _ IH]; simpl; [reflexivity|].
    assert (E : handle_data e st = Mqtt.Returned st []).
    { unfold Mqtt.mqtt_handle_data.
      destruct (Mqtt.on_command_json (Mqtt.s_handlers st)); [|reflexivity].
      replace ((Mqtt.total_data_len e <=? 0) || (Mqtt.data_len e <=? 0)) with true;
        [reflexivity|].
      symmetry. apply orb_true_iff.
      destruct He; [left | right]; apply Z.leb_le; lia. }
    now rewrite E, IH.
  - apply N.
  - apply N. reflexivity.
Qed.

(** X26.  When the buffer for a payload cannot be allocated, the payload
    is dropped as a whole: its first fragment is answered with one error
    and frees whatever was under way, every later fragment is ignored, and
    nothing is handed to [on_command_json]. *)
Theorem allocation_failure_drops_the_payload
    (total : Z) (c : list Byte.byte) (rest : list (list Byte.byte))
    (st : Mqtt.client World) handler :
  Mqtt.on_command_json (Mqtt.s_handlers st) = Some handler ->
  0 < total <= Mqtt.kMaxJsonLen ->
  malloc_ok total = false ->
  Forall (fun c => c <> []) (c :: rest) ->
  exists st' : Mqtt.client World,
    deliver (Mqtt.fragments total 0 (c :: rest)) st
    = Mqtt.Returned st'
        [Mqtt.Reported ESP_LOG_ERROR "Failed to allocate MQTT RX buffer (%u bytes)"
           [total]] /\
    Mqtt.s_rx_buffer st' = None /\
    Mqtt.world st' = Mqtt.world st /\
    Mqtt.s_handlers st' = Mqtt.s_handlers st.
Proof.
  intros Hh Ht Hm F. inversion F as [|? ? Hc Hrest]; subst.
  pose proof (size_positive c Hc) as Pc. unfold Mqtt.size in Pc.
  unfold Mqtt.kMaxJsonLen in Ht.
  set (st0 := if negb (Mqtt.s_rx_expected_len st =? 0) || is_bound (Mqtt.s_rx_buffer st)
              then Mqtt.rx_free st else st).
  assert (S0 : Mqtt.s_rx_buffer st0 = None /\ Mqtt.world st0 = Mqtt.world st /\
               Mqtt.s_handlers st0 = Mqtt.s_handlers st).
  { unfold st0. destruct (Mqtt.s_rx_buffer st) eqn:Eb; simpl.
    - rewrite orb_true_r. repeat split.
    - rewrite orb_false_r.
      destruct (negb (Mqtt.s_rx_expected_len st =? 0)); repeat split; auto. }
  exists st0. split; [|exact S0].
  simpl Mqtt.fragments. simpl deliver.
  assert (E : handle_data
                {| Mqtt.data := c; Mqtt.data_len := Z.of_nat (List.length c);
                   Mqtt.total_data_len := total; Mqtt.current_data_offset := 0 |} st
              = Mqtt.Returned st0
                  [Mqtt.Reported ESP_LOG_ERROR
                     "Failed to allocate MQTT RX buffer (%u bytes)" [total]]).
  { unfold Mqtt.mqtt_handle_data, Mqtt.start_of_payload; simpl. rewrite Hh.
    replace ((total <=? 0) || (Z.of_nat (List.length c) <=? 0)) with false
      by (symmetry; apply orb_false_iff; split; apply Z.leb_gt; lia).
    rewrite (size_t_small total) by lia.
    replace ((total =? 0) || (Mqtt.kMaxJsonLen <? total)) with false
      by (symmetry; apply orb_false_iff; split;
          [apply Z.eqb_neq | apply Z.ltb_ge; unfold Mqtt.kMaxJsonLen]; lia).
    rewrite Hm. reflexivity. }
  rewrite E.
  rewrite (stray_fragments_are_ignored total rest st0 (proj1 S0)) by lia.
  reflexivity.
Qed.

End Receive_path.

(* ================================================================== *)
(** ** More cases, on the test bench *)

Import Cases.

(** The table survives scenario A. *)
Lemma dispatch_keeps_handler_table_witness :
  exists st' tr,
    receive text_drive (boot all_handlers) = Done tt st' tr /\
    s_handlers st' = all_handlers.
Proof.
  eexists _, _. split; [reflexivity|].
  exact (dispatch_keeps_handler_table Bench.esp_log_timestamp Bench.cJSON_Parse
           Bench.malloc_ok (Some (bytes_of text_drive))
           (Z.of_nat (List.length (bytes_of text_drive)))
           (boot all_handlers) _ _ eq_refl).
Defined.

(** Scenario B with only [stop] bound: [stop] is called, [clear_queue] is
    not. *)
Lemma dispatch_calls_only_bound_handlers_witness :
  calls_of (receive text_repeat (boot only_stop)) = Some [call_stop] /\
  Forall (fun c => bound only_stop c = true) [call_stop].
Proof.
  split; [reflexivity|].
  exact (dispatch_calls_only_bound_handlers Bench.esp_log_timestamp
           Bench.cJSON_Parse Bench.malloc_ok (Some (bytes_of text_repeat))
           (Z.of_nat (List.length (bytes_of text_repeat)))
           (boot only_stop) (at_time 1 only_stop)
           [Parsed (bytes_of text_repeat); Invoked call_stop] eq_refl).
Defined.

(** Scenario A with an empty table: no call, and the state is as it was. *)
Lemma dispatch_changes_state_only_through_calls_witness :
  exists st' tr,
    receive text_drive (boot no_handlers) = Done tt st' tr /\
    calls tr = [] /\ st' = boot no_handlers.
Proof.
  eexists _, _. split; [reflexivity|].
  exact (proj2 (dispatch_changes_state_only_through_calls
                  Bench.esp_log_timestamp Bench.cJSON_Parse Bench.malloc_ok
                  (Some (bytes_of text_drive))
                  (Z.of_nat (List.length (bytes_of text_drive)))
                  (boot no_handlers) _ _ eq_refl) eq_refl).
Defined.

(** Three steps, one of them unknown: two calls, no more than three. *)
Lemma sequence_makes_at_most_one_call_per_step_witness :
  exists st' tr,
    handle_command Bench.esp_log_timestamp doc_mixed "sequence" (boot all_handlers)
      = Done tt st' tr /\
    calls tr = [call_stop; call_clear_queue] /\
    (List.length (calls tr) <= 3)%nat.
Proof.
  eexists _, _. split; [reflexivity|]. split; [reflexivity|].
  exact (sequence_makes_at_most_one_call_per_step Bench.esp_log_timestamp
           doc_mixed [step_stop; step_fly; step_clear]
           (boot all_handlers) _ _ eq_refl eq_refl).
Defined.

(** A drive without speed is rejected with one warning; a stop is accepted
    without one. *)
Lemma verdict_and_trace_agree_witness :
  (exists message,
     option_map diagnostics
       (trace_of (handle_single_command_object Bench.esp_log_timestamp
                    drive_no_speed (boot all_handlers)))
     = Some [(ESP_LOG_WARN, message)]) /\
  option_map diagnostics
    (trace_of (handle_single_command_object Bench.esp_log_timestamp
                 step_stop (boot all_handlers)))
  = Some [].
Proof.
  split.
  - destruct (proj2 (verdict_and_trace_agree Bench.esp_log_timestamp
                       drive_no_speed (boot all_handlers) (boot all_handlers) false
                       [Logged ESP_LOG_WARN "Invalid drive command payload"]
                       eq_refl) eq_refl)
      as (_ & _ & message & Hm).
    exists message. simpl. now rewrite <- Hm.
  - destruct (proj1 (verdict_and_trace_agree Bench.esp_log_timestamp
                       step_stop (boot all_handlers) (at_time 1 all_handlers) true
                       [Invoked call_stop] eq_refl) eq_refl)
      as (Hd & _).
    simpl. now rewrite <- Hd.
Defined.

(** The sequence [stop, fly, clear_queue] and the three command messages. *)
Lemma sequence_is_a_series_of_command_messages_witness :
  handle_command Bench.esp_log_timestamp doc_mixed "sequence" (boot all_handlers)
  = dispatch_commands Bench.esp_log_timestamp
      [command_message step_stop; command_message step_fly;
       command_message step_clear]
      (boot all_handlers).
Proof.
  exact (sequence_is_a_series_of_command_messages Bench.esp_log_timestamp
           doc_mixed [step_stop; step_fly; step_clear] (boot all_handlers)
           eq_refl eq_refl).
Defined.

(** Scenario A with garbage behind the announced length. *)
Lemma entry_never_reads_past_len_witness :
  protocol_handle_command_json Bench.esp_log_timestamp Bench.cJSON_Parse
    Bench.malloc_ok (Some (drive_bytes ++ trailing_bytes)%list) 95
    (boot all_handlers)
  = receive text_drive (boot all_handlers).
Proof.
  apply (entry_never_reads_past_len Bench.esp_log_timestamp Bench.cJSON_Parse
           Bench.malloc_ok drive_bytes trailing_bytes 95 (boot all_handlers)).
  vm_compute. discriminate.
Defined.

(** Scenario A with a NUL and more bytes inside the announced length: the
    parser is handed scenario A. *)
Lemma parser_is_handed_the_text_before_the_first_nul_witness :
  option_map parsed
    (trace_of (protocol_handle_command_json Bench.esp_log_timestamp
                 Bench.cJSON_Parse Bench.malloc_ok (Some drive_nul_more)
                 (Z.of_nat (List.length drive_nul_more)) (boot all_handlers)))
  = Some [drive_bytes] /\
  ~ In Byte.x00 drive_bytes.
Proof.
  split; [reflexivity|].
  destruct (parser_is_handed_the_text_before_the_first_nul
              Bench.esp_log_timestamp Bench.cJSON_Parse Bench.malloc_ok
              drive_nul_more (Z.of_nat (List.length drive_nul_more))
              (boot all_handlers) (at_time 1 all_handlers)
              [Parsed drive_bytes; Invoked (call_drive "forward" 150 0 1000)]
              eq_refl)
    as [Hnone | (text & rest & Ht & _ & Hnul & _)].
  - discriminate Hnone.
  - injection Ht as <-. exact Hnul.
Defined.


(** A wait of one second, with every handler bound. *)
Lemma wait_pause_resume_do_nothing_witness :
  handle_single_command_object Bench.esp_log_timestamp wait_a_second
    (boot all_handlers)
  = Done true (boot all_handlers) [].
Proof.
  exact (wait_pause_resume_do_nothing Bench.esp_log_timestamp wait_a_second
           "wait" (boot all_handlers) eq_refl (or_introl eq_refl)).
Defined.

(** [stop] with and without its handler. *)
Lemma stop_and_clear_queue_call_their_handler_witness :
  handle_single_command_object Bench.esp_log_timestamp step_stop (boot all_handlers)
    = Done true (at_time 1 all_handlers) [Invoked call_stop] /\
  handle_single_command_object Bench.esp_log_timestamp step_clear (boot only_stop)
    = Done true (boot only_stop) [].
Proof.
  split.
  - exact (proj1 (stop_and_clear_queue_call_their_handler Bench.esp_log_timestamp
                    step_stop (boot all_handlers)) eq_refl).
  - exact (proj2 (stop_and_clear_queue_call_their_handler Bench.esp_log_timestamp
                    step_clear (boot only_stop)) eq_refl).
Defined.

Lemma capital_stop_is_no_known_kind : ~ In "Stop" known_kinds.
Proof.
  unfold known_kinds. simpl.
  intros H. repeat (destruct H as [H|H]; [discriminate H|]). exact H.
Qed.

(** A kind in the wrong case, and an object without a kind. *)
Lemma unknown_kind_is_rejected_witness :
  handle_single_command_object Bench.esp_log_timestamp capital_stop
    (boot all_handlers)
    = Done false (boot all_handlers)
        [Logged ESP_LOG_WARN "Unknown command kind: Stop"] /\
  handle_single_command_object Bench.esp_log_timestamp no_kind (boot all_handlers)
    = Done false (boot all_handlers)
        [Logged ESP_LOG_WARN "JSON command missing kind"].
Proof.
  split.
  - exact (proj1 (unknown_kind_is_rejected Bench.esp_log_timestamp capital_stop
                    (boot all_handlers))
             "Stop" eq_refl capital_stop_is_no_known_kind).
  - exact (proj2 (unknown_kind_is_rejected Bench.esp_log_timestamp no_kind
                    (boot all_handlers)) eq_refl).
Defined.

Lemma telemetry_is_no_message_type : ~ In "telemetry" ["command"; "sequence"; "config"].
Proof.
  simpl. intros H. repeat (destruct H as [H|H]; [discriminate H|]). exact H.
Qed.

(** A message of an unknown type, and a config without a drive object. *)
Lemma router_drops_incomplete_messages_witness :
  handle_command Bench.esp_log_timestamp msg_telemetry "telemetry"
    (boot all_handlers)
    = Done tt (boot all_handlers)
        [Logged ESP_LOG_WARN "Unknown message type: telemetry"] /\
  handle_command Bench.esp_log_timestamp msg_sequence_empty "sequence"
    (boot all_handlers)
    = Done tt (boot all_handlers)
        [Logged ESP_LOG_WARN "Sequence missing steps array"] /\
  handle_command Bench.esp_log_timestamp msg_config_empty "config"
    (boot all_handlers)
    = Done tt (boot all_handlers) [].
Proof.
  pose proof (router_drops_incomplete_messages Bench.esp_log_timestamp
                msg_telemetry (boot all_handlers)) as (Htype & _).
  pose proof (router_drops_incomplete_messages Bench.esp_log_timestamp
                msg_sequence_empty (boot all_handlers)) as (_ & _ & Hsteps & _).
  pose proof (router_drops_incomplete_messages Bench.esp_log_timestamp
                msg_config_empty (boot all_handlers)) as (_ & _ & _ & Hdrive).
  split; [|split].
  - exact (Htype "telemetry" telemetry_is_no_message_type).
  - exact (Hsteps eq_refl).
  - exact (Hdrive eq_refl).
Defined.

(** Scenario A after the table was cleared. *)
Lemma set_handlers_null_silences_the_engine_witness :
  exists st' tr,
    bind (protocol_set_handlers None)
         (fun _ => protocol_handle_command_json Bench.esp_log_timestamp
                     Bench.cJSON_Parse Bench.malloc_ok (Some drive_bytes) 95)
         (boot all_handlers)
    = Done tt st' tr /\
    calls tr = [] /\ world st' = 0 /\ s_handlers st' = no_handlers.
Proof.
  eexists _, _. split; [reflexivity|].
  exact (set_handlers_null_silences_the_engine Bench.esp_log_timestamp
           Bench.cJSON_Parse Bench.malloc_ok (Some drive_bytes) 95
           (boot all_handlers) _ _ eq_refl).
Defined.

Lemma odd_events_are_ints : Forall Mqtt.int_fields odd_events.
Proof.
  unfold odd_events, Mqtt.int_fields, Mqtt.is_int.
  repeat constructor; simpl; lia.
Qed.

Lemma mqtt_boot_is_consistent : Mqtt.rx_consistent mqtt_boot.
Proof. split; reflexivity. Qed.

(** After a stray fragment, a start, an overlong fragment, an oversize
    start and a two-byte payload, the statics are idle again. *)
Lemma receive_path_keeps_statics_consistent_witness :
  exists st' tr,
    Mqtt.data_events Bench.malloc_ok odd_events mqtt_boot = Mqtt.Returned st' tr /\
    Mqtt.rx_consistent st' /\ Mqtt.s_rx_buffer st' = None.
Proof.
  eexists _, _. split; [reflexivity|]. split; [|reflexivity].
  exact (receive_path_keeps_statics_consistent Bench.malloc_ok odd_events
           mqtt_boot _ _ mqtt_boot_is_consistent odd_events_are_ints eq_refl).
Defined.

(** Out of the same events only the two-byte payload is handed over, with
    length 2. *)
Lemma every_delivery_carries_its_own_length_witness :
  exists st' tr,
    Mqtt.data_events Bench.malloc_ok odd_events mqtt_boot = Mqtt.Returned st' tr /\
    Mqtt.forwarded tr = [(firstn 2 drive_bytes, 2)] /\
    Forall Mqtt.well_formed_delivery (Mqtt.forwarded tr).
Proof.
  eexists _, _. split; [reflexivity|]. split; [reflexivity|].
  exact (every_delivery_carries_its_own_length Bench.malloc_ok odd_events
           mqtt_boot _ _ mqtt_boot_is_consistent odd_events_are_ints eq_refl).
Defined.

Lemma drive_chunks_are_not_empty : Forall (fun c => c <> []) drive_chunks.
Proof. unfold drive_chunks. repeat constructor; discriminate. Qed.

(** Scenario A in three fragments reaches the engine once, whole, and
    calls [drive("forward", 150, 0, 1000)]. *)
Lemma fragments_are_reassembled_witness :
  exists st' tr,
    Mqtt.data_events Bench.malloc_ok (Mqtt.fragments 95 0 drive_chunks) mqtt_boot
      = Mqtt.Returned st' tr /\
    tr = [Mqtt.Forwarded drive_bytes 95] /\
    calls_of (Mqtt.world st') = Some [call_drive "forward" 150 0 1000].
Proof.
  eexists _, _. split.
  - apply (fragments_are_reassembled Bench.malloc_ok drive_chunks mqtt_boot
             on_message_received eq_refl drive_chunks_are_not_empty).
    + split; [reflexivity | discriminate].
    + reflexivity.
  - split; reflexivity.
Defined.

(** A payload announced as 9000 bytes long. *)
Lemma oversize_payload_is_dropped_witness :
  exists st',
    Mqtt.data_events Bench.malloc_ok (Mqtt.fragments 9000 0 drive_chunks) mqtt_boot
      = Mqtt.Returned st'
          [Mqtt.Reported ESP_LOG_WARN "MQTT payload too large or zero (len=%u)"
             [9000]] /\
    Mqtt.s_rx_buffer st' = None.
Proof.
  destruct (oversize_payload_is_dropped Bench.malloc_ok 9000
              (firstn 10 drive_bytes)
              [firstn 40 (skipn 10 drive_bytes); skipn 50 drive_bytes]
              mqtt_boot on_message_received eq_refl)
    as (st' & Hrun & Hbuf & _).
  - unfold Mqtt.kMaxJsonLen. lia.
  - exact drive_chunks_are_not_empty.
  - exists st'. split; [exact Hrun | exact Hbuf].
Defined.



(** A drive without speed, a turn without angle, an immediate without
    right. *)
Lemma invalid_payload_is_rejected_witness :
  handle_drive_command drive_no_speed (boot all_handlers)
    = Done false (boot all_handlers)
        [Logged ESP_LOG_WARN "Invalid drive command payload"] /\
  handle_turn_command turn_no_angle (boot all_handlers)
    = Done false (boot all_handlers)
        [Logged ESP_LOG_WARN "Invalid turn command payload (radius/angle)"] /\
  handle_immediate_command Bench.esp_log_timestamp immediate_no_right
    (boot all_handlers)
    = Done false (boot all_handlers)
        [Logged ESP_LOG_WARN "Invalid immediate command payload (left/right)"].
Proof.
  pose proof (invalid_payload_is_rejected Bench.esp_log_timestamp
                drive_no_speed (boot all_handlers)) as (Hdrive & _).
  pose proof (invalid_payload_is_rejected Bench.esp_log_timestamp
                turn_no_angle (boot all_handlers)) as (_ & Hturn & _).
  pose proof (invalid_payload_is_rejected Bench.esp_log_timestamp
                immediate_no_right (boot all_handlers)) as (_ & _ & Himmediate).
  split; [|split].
  - exact (Hdrive (or_intror eq_refl)).
  - exact (Hturn (or_intror eq_refl)).
  - exact (Himmediate (or_intror eq_refl)).
Defined.

(** A speed beyond [int32_t], a negative duration, a hue beyond
    [uint16_t], a saturation beyond [uint8_t]; and scenario A's command,
    which is in range. *)
Lemma conversions_are_not_range_checked_witness :
  handle_drive_command drive_too_fast (boot all_handlers) = Undefined /\
  handle_drive_command drive_negative_duration (boot all_handlers) = Undefined /\
  handle_led_hsv_command led_hue_70000 (boot all_handlers) = Undefined /\
  handle_led_hsv_command led_sat_256 (boot all_handlers) = Undefined /\
  handle_led_hsv_command led_full (boot all_handlers) <> Undefined.
Proof.
  pose proof (conversions_are_not_range_checked drive_too_fast
                (boot all_handlers)) as (Hfast & _).
  pose proof (conversions_are_not_range_checked drive_negative_duration
                (boot all_handlers)) as (Hnegative & _).
  pose proof (conversions_are_not_range_checked led_hue_70000
                (boot all_handlers)) as (_ & Hhue).
  pose proof (conversions_are_not_range_checked led_sat_256
                (boot all_handlers)) as (_ & Hsat).
  pose proof (conversions_are_not_range_checked led_full
                (boot all_handlers)) as (_ & Hfull).
  split; [|split; [|split; [|split]]].
  - exact (proj2 (Hfast "forward" 3000000000%float eq_refl eq_refl)
             (or_introl eq_refl)).
  - exact (proj2 (Hnegative "forward" 150%float eq_refl eq_refl)
             (or_intror (or_introl eq_refl))).
  - exact (proj2 (Hhue 70000%float eq_refl) (or_introl eq_refl)).
  - exact (proj2 (Hsat 120%float eq_refl) (or_intror (or_introl eq_refl))).
  - intros U. apply (proj1 (Hfull 120%float eq_refl)) in U.
    destruct U as [U|[U|U]]; discriminate U.
Defined.

(** Scenario A on a heap that cannot hold its copy. *)
Lemma allocation_failure_drops_the_message_witness :
  protocol_handle_command_json Bench.esp_log_timestamp Bench.cJSON_Parse
    tight_heap (Some drive_bytes) 95 (boot all_handlers)
  = Done tt (boot all_handlers)
      [Logged ESP_LOG_ERROR "Failed to allocate buffer for JSON parse"].
Proof.
  apply (allocation_failure_drops_the_message Bench.esp_log_timestamp
           Bench.cJSON_Parse tight_heap drive_bytes 95 (boot all_handlers)).
  - discriminate.
  - reflexivity.
Defined.

(** Scenario A is routed as a [command]; the text [[]] has no [type]. *)
Lemma entry_routes_on_type_witness :
  receive text_drive (boot all_handlers)
    = Done tt (at_time 1 all_handlers)
        [Parsed drive_bytes; Invoked (call_drive "forward" 150 0 1000)] /\
  receive text_array_root (boot all_handlers)
    = Done tt (boot all_handlers)
        [Parsed (bytes_of text_array_root);
         Logged ESP_LOG_WARN "JSON command missing type"].
Proof.
  split.
  - refine (proj1 (entry_routes_on_type Bench.esp_log_timestamp Bench.cJSON_Parse
                     Bench.malloc_ok drive_bytes 95 doc_drive (boot all_handlers)
                     _ eq_refl eq_refl) "command" eq_refl).
    split; [reflexivity | discriminate].
  - refine (proj2 (entry_routes_on_type Bench.esp_log_timestamp Bench.cJSON_Parse
                     Bench.malloc_ok (bytes_of text_array_root) 2 (cJSON_Array [])
                     (boot all_handlers) _ eq_refl eq_refl) eq_refl).
    split; [reflexivity | discriminate].
Defined.

Lemma empty_events_carry_nothing :
  Forall (fun e => Mqtt.total_data_len e <= 0 \/ Mqtt.data_len e <= 0) empty_events.
Proof.
  unfold empty_events. repeat constructor; simpl; lia.
Qed.

(** Events without data, and scenario A in three fragments after the
    handlers were cleared. *)
Lemma data_without_handler_or_length_is_ignored_witness :
  Mqtt.data_events Bench.malloc_ok empty_events mqtt_boot
    = Mqtt.Returned mqtt_boot [] /\
  Mqtt.data_events Bench.malloc_ok (Mqtt.fragments 95 0 drive_chunks)
    (Mqtt.mqtt_set_handlers None mqtt_boot)
    = Mqtt.Returned (Mqtt.mqtt_set_handlers None mqtt_boot) [].
Proof.
  split.
  - exact (proj1 (data_without_handler_or_length_is_ignored Bench.malloc_ok
                    empty_events mqtt_boot) empty_events_carry_nothing).
  - exact (proj2 (proj2 (data_without_handler_or_length_is_ignored Bench.malloc_ok
                           (Mqtt.fragments 95 0 drive_chunks) mqtt_boot))).
Defined.

(** Scenario A in three fragments on a heap that cannot hold it. *)
Lemma allocation_failure_drops_the_payload_witness :
  exists st',
    Mqtt.data_events tight_heap (Mqtt.fragments 95 0 drive_chunks) mqtt_boot
      = Mqtt.Returned st'
          [Mqtt.Reported ESP_LOG_ERROR
             "Failed to allocate MQTT RX buffer (%u bytes)" [95]] /\
    Mqtt.s_rx_buffer st' = None /\
    Mqtt.world st' = robot_boot.
Proof.
  destruct (allocation_failure_drops_the_payload tight_heap 95
              (firstn 10 drive_bytes)
              [firstn 40 (skipn 10 drive_bytes); skipn 50 drive_bytes]
              mqtt_boot on_message_received eq_refl)
    as (st' & Hrun & Hbuf & Hworld & _).
  - unfold Mqtt.kMaxJsonLen. lia.
  - reflexivity.
  - exact drive_chunks_are_not_empty.
  - exists st'. split; [exact Hrun|]. split; [exact Hbuf | exact Hworld].
Defined.

Lemma comment_tail_is_not_empty :
  Forall (fun c => c <> []) [skipn 20 comment_bytes].
Proof. repeat constructor. discriminate. Qed.

(** The first 20 bytes of a [wait] command are under way.  The first
    fragment of a message of unknown type and of the same length is lost;
    its second fragment, at offset 20, completes the buffer: the engine is
    handed a [stop] command that nobody sent, and calls [stop]. *)
Lemma fragment_is_known_by_its_offset_alone_witness :
  Mqtt.data_events Bench.malloc_ok
    (Mqtt.fragments 44 20 [skipn 20 comment_bytes]) mqtt_under_way
  = Mqtt.Returned
      (Mqtt.idle mqtt_handlers (on_message_received spliced_bytes 44 robot_boot))
      [Mqtt.Forwarded spliced_bytes 44] /\
  calls_of (on_message_received spliced_bytes 44 robot_boot) = Some [call_stop] /\
  calls_of (on_message_received wait_bytes 44 robot_boot) = Some [] /\
  calls_of (on_message_received comment_bytes 44 robot_boot) = Some [].
Proof.
  split; [|repeat split].
  refine (fragment_is_known_by_its_offset_alone Bench.malloc_ok 44 44
            [skipn 20 comment_bytes] mqtt_handlers robot_boot on_message_received
            eq_refl _ _ comment_tail_is_not_empty (firstn 20 wait_bytes) _ _).
  - reflexivity.
  - discriminate.
  - split; reflexivity.
  - discriminate.
Defined.
